(** * Filter-aggregate pipeline of the Spotify stakeholder dashboard

    A shallow embedding of the data pipeline of [app.py] and of the later
    dashboard revisions ("app (9).py" ... "app (17).py"): the four-column
    constraint filter, the grouped sums, the KPI row, the numeric coercion of
    the campaign table and the market-signal classification.

    The dashboards are straight-line scripts over pandas data frames.  A
    data frame is modelled as the list of its rows, a Series produced by
    [groupby(...).sum()] as the list of its (index label, value) pairs in
    index order, and an expression that can raise as a value of [outcome].
    Where a statement binds or updates a frame, the frames live in a store
    of objects and the names of the script refer to them. *)

From Stdlib Require Import List ZArith QArith Qround Qabs String Ascii Bool Lia.
From Stdlib Require Import Permutation Sorted Lqa.
From Stdlib Require OrderedTypeEx.
Import ListNotations.

Local Open Scope string_scope.
Local Open Scope Z_scope.

(** ** Python outcomes *)

(** The exceptions of interest.  [ValueError] is what [Series.idxmax] raises
    on an empty Series, [TypeError] what [Series.abs] raises on a column of
    strings.  [NoDataError] is the name used by the written specification for
    an empty-input condition; no statement of the scripts raises it. *)
Inductive PyExn : Type :=
| ValueError
| TypeError
| NoDataError.

Inductive outcome (A : Type) : Type :=
| Ok (a : A)
| Raise (e : PyExn).

Arguments Ok {A} a.
Arguments Raise {A} e.

Definition bind {A B : Type} (m : outcome A) (k : A -> outcome B) : outcome B :=
  match m with
  | Ok a => k a
  | Raise e => Raise e
  end.

Notation "x <- m ;; k" := (bind m (fun x => k))
  (at level 61, m at next level, right associativity).

Definition returns {A : Type} (m : outcome A) : Prop := exists a, m = Ok a.

(** ** The fragment of pandas and numpy the scripts call *)

Module Pandas.

(** *** 64-bit integers and floats *)

(** Integer columns are [int64]; numpy sums them with silent wrap-around. *)
Definition wrap64 (z : Z) : Z := (z + 2 ^ 63) mod 2 ^ 64 - 2 ^ 63.

Definition add64 (a b : Z) : Z := wrap64 (a + b).

(** A [float64] result.  Finite values are kept as exact rationals: binary
    rounding is not modelled, the special values are. *)
Inductive float : Type :=
| Fin (q : Q)
| NaN
| PosInf
| NegInf.

Definition is_finite (x : float) : bool :=
  match x with
  | Fin _ => true
  | _ => false
  end.

(** [a / b] on two [int64] scalars: true division, which yields [nan] or an
    infinity on a zero divisor instead of raising. *)
Definition truediv (a b : Z) : float :=
  if b =? 0 then
    if a =? 0 then NaN else if 0 <? a then PosInf else NegInf
  else Fin (inject_Z a / inject_Z b).

(** [x * 100] for the positive literal [100]. *)
Definition mul100 (x : float) : float :=
  match x with
  | Fin q => Fin (q * 100)
  | NaN => NaN
  | PosInf => PosInf
  | NegInf => NegInf
  end.

(** Nearest integer, halves to the even neighbour. *)
Definition round_half_even (q : Q) : Z :=
  let n := Qfloor q in
  match Qcompare (q - inject_Z n) (1 # 2) with
  | Lt => n
  | Gt => n + 1
  | Eq => if Z.even n then n else n + 1
  end.

(** [round(x, 1)]. *)
Definition round1 (x : float) : float :=
  match x with
  | Fin q => Fin (inject_Z (round_half_even (q * 10)) / 10)
  | other => other
  end.

(** *** Text cells and selection *)

(** A cell of a text column as [read_csv] delivers it: a string, or [None]
    for an empty cell, which pandas holds as the missing value [nan]. *)
Definition text : Type := option string.

(** Identity of two cells as [isin] and [unique] see it: the missing value
    matches the missing value. *)
Definition same_cell (a b : text) : bool :=
  match a, b with
  | Some x, Some y => (x =? y)%string
  | None, None => true
  | _, _ => false
  end.

(** [cell == value], element of the mask [column == value]: never true
    when either side is missing. *)
Definition eq_text (a b : text) : bool :=
  match a, b with
  | Some x, Some y => (x =? y)%string
  | _, _ => false
  end.

(** [value in values], the test behind [Series.isin(values)]. *)
Definition isin (v : text) (values : list text) : bool :=
  existsb (same_cell v) values.

Fixpoint unique_from (seen : list text) (col : list text) : list text :=
  match col with
  | [] => []
  | v :: rest =>
      if isin v seen then unique_from seen rest
      else v :: unique_from (v :: seen) rest
  end.

(** [Series.unique()]: the distinct values in order of first appearance,
    the missing value among them when the column has it. *)
Definition unique (col : list text) : list text := unique_from [] col.

(** The key of a row grouped by two columns: present when both are. *)
Definition pair_key (a b : text) : option (string * string) :=
  match a, b with
  | Some x, Some y => Some (x, y)
  | _, _ => None
  end.

(** *** Sums and grouped sums *)

Section Series.
Context {A K : Type}.
Variable cmp : K -> K -> comparison.
Variable key : A -> option K.
Variable val : A -> Z.

(** [df[col].sum()] on an [int64] column; the empty sum is [0]. *)
Definition col_sum (df : list A) : Z :=
  fold_left (fun acc r => add64 acc (val r)) df 0.

(** One more row for the group table, kept sorted by key as
    [groupby] (with its default [sort=True]) presents it. *)
Fixpoint add_to_group (k : K) (v : Z) (groups : list (K * Z)) : list (K * Z) :=
  match groups with
  | [] => [(k, v)]
  | (k', s) :: rest =>
      match cmp k k' with
      | Eq => (k', add64 s v) :: rest
      | Lt => (k, v) :: (k', s) :: rest
      | Gt => (k', s) :: add_to_group k v rest
      end
  end.

(** The row joins the group of its key; a row whose key is missing joins
    none ([groupby] has [dropna=True] by default). *)
Definition add_row (groups : list (K * Z)) (r : A) : list (K * Z) :=
  match key r with
  | Some k => add_to_group k (val r) groups
  | None => groups
  end.

(** [df.groupby(key)[val].sum()]: one entry per key present in [df]. *)
Definition groupby_sum (df : list A) : list (K * Z) :=
  fold_left add_row df [].

(** The rows that take part in the grouping. *)
Definition contributes (r : A) : bool :=
  match key r with
  | Some _ => true
  | None => false
  end.

Fixpoint argmax_from (best : K) (best_v : Z) (s : list (K * Z)) : K :=
  match s with
  | [] => best
  | (k, v) :: rest =>
      if best_v <? v then argmax_from k v rest
      else argmax_from best best_v rest
  end.

(** [Series.idxmax()]: the label of the first maximum; raises
    [ValueError] on an empty Series. *)
Definition idxmax (s : list (K * Z)) : outcome K :=
  match s with
  | [] => Raise ValueError
  | (k, v) :: rest => Ok (argmax_from k v rest)
  end.

End Series.

(** [series.sum()] on the result of a grouped sum. *)
Definition series_sum {K : Type} (s : list (K * Z)) : Z := col_sum snd s.

(** The exact (unbounded) total of a list of integers. *)
Definition zsum (l : list Z) : Z := fold_right Z.add 0 l.

(** Two float results denote the same number. *)
Definition float_eq (x y : float) : Prop :=
  match x, y with
  | Fin a, Fin b => (a == b)%Q
  | NaN, NaN | PosInf, PosInf | NegInf, NegInf => True
  | _, _ => False
  end.

End Pandas.

(** ** The streaming table *)

Record Row : Type := mkRow {
  region : Pandas.text;
  genre : Pandas.text;
  subscription_type : Pandas.text;
  month : Pandas.text;
  artist_name : Pandas.text;
  country : Pandas.text;
  streams : Z;
  active_listeners : Z;
  completion_rate : Q
}.

Definition Table : Type := list Row.

(** [T'] keeps some of the rows of [T], in their order. *)
Inductive Subtable {A : Type} : list A -> list A -> Prop :=
| Subtable_nil : Subtable [] []
| Subtable_keep r T' T : Subtable T' T -> Subtable (r :: T') (r :: T)
| Subtable_drop r T' T : Subtable T' T -> Subtable T' (r :: T).

(** ** app.py *)

Module App.
Import Pandas.

(** The four sidebar multiselects. *)
Record Selection : Type := mkSelection {
  sel_region : list text;
  sel_genre : list text;
  sel_subscription : list text;
  sel_month : list text
}.

(** The default of every multiselect: all values observed in [df]. *)
Definition default_selection (df : Table) : Selection :=
  {| sel_region := unique (map region df);
     sel_genre := unique (map genre df);
     sel_subscription := unique (map subscription_type df);
     sel_month := unique (map month df) |}.

(** The boolean mask of lines 51-54, row by row. *)
Definition mask (sel : Selection) (r : Row) : bool :=
  isin (region r) (sel_region sel)
  && isin (genre r) (sel_genre sel)
  && isin (subscription_type r) (sel_subscription sel)
  && isin (month r) (sel_month sel).

(** A row satisfies the selection when each of its four filter columns
    holds a selected value. *)
Definition satisfies (sel : Selection) (r : Row) : Prop :=
  In (region r) (sel_region sel)
  /\ In (genre r) (sel_genre sel)
  /\ In (subscription_type r) (sel_subscription sel)
  /\ In (month r) (sel_month sel).

(** [filtered_df = df[mask]]. *)
Definition filtered_df (df : Table) (sel : Selection) : Table :=
  filter (mask sel) df.

Definition total_streams (fdf : Table) : Z := col_sum streams fdf.

Definition active_users (fdf : Table) : Z := col_sum active_listeners fdf.

(** Lines 60-64: guarded by [not filtered_df.empty]. *)
Definition top_artist (fdf : Table) : outcome string :=
  match fdf with
  | [] => Ok "N/A"
  | _ :: _ => idxmax (groupby_sum String.compare artist_name streams fdf)
  end.

(** Lines 65-68: guarded by [active_users > 0]. *)
Definition premium_share (fdf : Table) : float :=
  if 0 <? active_users fdf then
    mul100
      (truediv
         (col_sum active_listeners
            (filter (fun r => eq_text (subscription_type r) (Some "Premium")) fdf))
         (active_users fdf))
  else Fin 0.

Record Kpis : Type := mkKpis {
  kpi_total_streams : Z;
  kpi_active_users : Z;
  kpi_top_artist : string;
  kpi_premium_share : float
}.

(** The KPI block, lines 58-68, in statement order. *)
Definition kpis (fdf : Table) : outcome Kpis :=
  let ts := total_streams fdf in
  let au := active_users fdf in
  ta <- top_artist fdf ;;
  let ps := premium_share fdf in
  Ok {| kpi_total_streams := ts; kpi_active_users := au;
        kpi_top_artist := ta; kpi_premium_share := ps |}.

(** Order of the labels of a two-column group key. *)
Definition pair_compare (a b : string * string) : comparison :=
  match String.compare (fst a) (fst b) with
  | Eq => String.compare (snd a) (snd b)
  | c => c
  end.

(** The group key of lines 102-105: [["region", "genre"]]. *)
Definition region_genre (r : Row) : option (string * string) :=
  pair_key (region r) (genre r).

(** Lines 102-105. *)
Definition genre_region (fdf : Table) : list ((string * string) * Z) :=
  groupby_sum pair_compare region_genre streams fdf.

End App.

(** ** The later revisions: streaming page *)

Module Dashboard.
Import Pandas.

(** "app (10).py", lines 89-94: the same four-column mask on [spotify_df]. *)
Definition df (spotify_df : Table) (region_sel genre_sel sub month_sel : list text) : Table :=
  filter
    (fun r =>
       isin (region r) region_sel
       && isin (genre r) genre_sel
       && isin (subscription_type r) sub
       && isin (month r) month_sel)
    spotify_df.

(** Line 100: the "Top Artist" tile, without a guard. *)
Definition top_artist_metric (df : Table) : outcome string :=
  idxmax (groupby_sum String.compare artist_name streams df).

(** Lines 101-102: the "Premium Share (%)" tile, without a guard. *)
Definition premium_share_metric (df : Table) : float :=
  round1
    (mul100
       (truediv
          (col_sum active_listeners
             (filter (fun r => eq_text (subscription_type r) (Some "Premium")) df))
          (col_sum active_listeners df))).

(** The KPI row, lines 97-102, tile by tile. *)
Definition kpi_row (df : Table) : outcome (Z * Z * string * float) :=
  let k1 := col_sum streams df in
  let k2 := col_sum active_listeners df in
  k3 <- top_artist_metric df ;;
  let k4 := premium_share_metric df in
  Ok (k1, k2, k3, k4).

(** The group key of lines 1160: [["country", "region"]]. *)
Definition country_region (r : Row) : option (string * string) :=
  pair_key (country r) (region r).

(** "app (17).py", lines 1158-1162. *)
Definition map_df (df : Table) (map_genre : text) : list ((string * string) * Z) :=
  groupby_sum App.pair_compare country_region streams
    (filter (fun r => eq_text (genre r) map_genre) df).

Fixpoint insert_sorted (x : Z) (l : list Z) : list Z :=
  match l with
  | [] => [x]
  | y :: rest => if x <=? y then x :: y :: rest else y :: insert_sorted x rest
  end.

Definition sort_values (l : list Z) : list Z := fold_right insert_sorted [] l.

(** [Series.quantile(q)] with the default linear interpolation between the
    two order statistics around position [(n - 1) * q]; [nan] on an empty
    Series. *)
Definition quantile (values : list Z) (q : Q) : float :=
  match sort_values values with
  | [] => NaN
  | (first :: _) as sorted =>
      let h := ((inject_Z (Z.of_nat (List.length sorted)) - 1) * q)%Q in
      let lo := Qfloor h in
      let a := nth (Z.to_nat lo) sorted first in
      let b := nth (Z.to_nat (lo + 1)) sorted a in
      Fin (inject_Z a + (inject_Z b - inject_Z a) * (h - inject_Z lo))%Q
  end.

(** [x >= t] on floats: false as soon as one side is [nan]. *)
Definition ge (x t : float) : bool :=
  match x, t with
  | NaN, _ | _, NaN => false
  | PosInf, _ => true
  | _, NegInf => true
  | Fin a, Fin b => Qle_bool b a
  | Fin _, PosInf => false
  | NegInf, _ => false
  end.

(** Lines 1168-1174; [q75], [q40] and [map_genre] are the variables the
    closure reads. *)
Definition classify (map_genre : string) (q75 q40 : float) (x : float) : string :=
  if ge x q75 then "High " ++ map_genre ++ " adoption market"
  else if ge x q40 then "Moderate " ++ map_genre ++ " adoption market"
  else "Low " ++ map_genre ++ " adoption market".

(** Lines 1165-1176: the [market_signal] column of [map_df]. *)
Definition market_signal (map_genre : string) (mdf : list ((string * string) * Z)) : list string :=
  let q75 := quantile (map snd mdf) (75 # 100) in
  let q40 := quantile (map snd mdf) (40 # 100) in
  map (fun kv => classify map_genre q75 q40 (Fin (inject_Z (snd kv)))) mdf.

End Dashboard.

(** ** The later revisions: campaign table *)

Module Campaign.
Import Pandas.

(** A number of a numeric column: an integer, a finite float (kept as an
    exact rational) or an infinity. *)
Inductive number : Type :=
| Int (z : Z)
| Real (q : Q)
| Inf (positive : bool).

(** A cell of a column as [read_csv] delivers it: a number, a string that
    was left as text, or a missing value. *)
Inductive cell : Type :=
| Num (n : number)
| Str (s : string)
| Missing.

Record CampaignRow : Type := mkCampaignRow {
  campaign_name : text;
  target_region : text;
  target_genre : text;
  month : text;
  users_before : cell;
  users_after : cell;
  net_user_gain : cell;
  user_growth_pct : cell;
  premium_growth_pct : cell;
  (* the cells of the columns of the CSV that the scripts never name *)
  other_cells : list cell
}.

Inductive NumCol : Type :=
| Users_before
| Users_after
| Net_user_gain
| User_growth_pct
| Premium_growth_pct.

(** [campaign_df[c]] *)
Definition get_col (c : NumCol) (r : CampaignRow) : cell :=
  match c with
  | Users_before => users_before r
  | Users_after => users_after r
  | Net_user_gain => net_user_gain r
  | User_growth_pct => user_growth_pct r
  | Premium_growth_pct => premium_growth_pct r
  end.

Definition set_col (c : NumCol) (v : cell) (r : CampaignRow) : CampaignRow :=
  let upd (c' : NumCol) (old : cell) : cell :=
    match c, c' with
    | Users_before, Users_before
    | Users_after, Users_after
    | Net_user_gain, Net_user_gain
    | User_growth_pct, User_growth_pct
    | Premium_growth_pct, Premium_growth_pct => v
    | _, _ => old
    end in
  {| campaign_name := campaign_name r;
     target_region := target_region r;
     target_genre := target_genre r;
     month := month r;
     users_before := upd Users_before (users_before r);
     users_after := upd Users_after (users_after r);
     net_user_gain := upd Net_user_gain (net_user_gain r);
     user_growth_pct := upd User_growth_pct (user_growth_pct r);
     premium_growth_pct := upd Premium_growth_pct (premium_growth_pct r);
     other_cells := other_cells r |}.

Definition num_cols : list NumCol :=
  [Users_before; Users_after; Net_user_gain; User_growth_pct; Premium_growth_pct].

Section Coercion.
(** The numeric parser of the library, [None] where it rejects the text. *)
Variable parse : string -> option number.

Definition coerce (v : cell) : cell :=
  match v with
  | Num q => Num q
  | Str s =>
      match parse s with
      | Some q => Num q
      | None => Missing
      end
  | Missing => Missing
  end.

(** [pd.to_numeric(series, errors="coerce")] *)
Definition to_numeric (series : list cell) : list cell := map coerce series.

(** [campaign_df[c] = values], aligned row by row. *)
Definition assign_col (c : NumCol) (values : list cell) (cdf : list CampaignRow)
  : list CampaignRow :=
  map (fun rv => set_col c (snd rv) (fst rv)) (combine cdf values).

(** The loop of lines 511-513 (and 294-296). *)
Definition numeric_safety (cdf : list CampaignRow) : list CampaignRow :=
  fold_left
    (fun d c => assign_col c (to_numeric (map (get_col c) d)) d)
    num_cols cdf.
End Coercion.

Definition isna (v : cell) : bool :=
  match v with
  | Missing => true
  | _ => false
  end.

(** Line 515: [dropna(subset=["user_growth_pct", "premium_growth_pct",
    "net_user_gain"])]. *)
Definition dropna (cdf : list CampaignRow) : list CampaignRow :=
  filter
    (fun r =>
       negb (isna (user_growth_pct r))
       && negb (isna (premium_growth_pct r))
       && negb (isna (net_user_gain r)))
    cdf.

(** The two dtypes a numeric column can have. *)
Inductive dtype : Type :=
| int64
| float64.

Definition is_int (v : cell) : bool :=
  match v with
  | Num (Int _) => true
  | _ => false
  end.

(** The dtype [to_numeric] leaves a column with: [int64] when every cell is
    an integer, [float64] as soon as one cell is missing, has a fraction or
    is infinite.  Dropping rows afterwards does not change it. *)
Definition dtype_of (column : list cell) : dtype :=
  if forallb is_int column then int64 else float64.

(** [abs] of one number in a column of the given dtype.  In an [int64]
    column the result wraps, so the smallest integer is its own absolute
    value; in a [float64] column an integer stands for the float of the
    same value. *)
Definition abs_number (dt : dtype) (n : number) : number :=
  match dt, n with
  | int64, Int z => Int (wrap64 (Z.abs z))
  | float64, Int z => Real (Qabs (inject_Z z))
  | _, Real q => Real (Qabs q)
  | _, Inf _ => Inf true
  end.

(** [n + 10] in a column of the given dtype. *)
Definition add10 (dt : dtype) (n : number) : number :=
  match dt, n with
  | int64, Int z => Int (add64 z 10)
  | float64, Int z => Real (inject_Z z + 10)
  | _, Real q => Real (q + 10)
  | _, Inf b => Inf b
  end.

(** [Series.abs()]: element by element, [TypeError] on text. *)
Fixpoint series_abs (dt : dtype) (s : list cell) : outcome (list cell) :=
  match s with
  | [] => Ok []
  | Num n :: rest =>
      rest' <- series_abs dt rest ;; Ok (Num (abs_number dt n) :: rest')
  | Missing :: rest => rest' <- series_abs dt rest ;; Ok (Missing :: rest')
  | Str _ :: _ => Raise TypeError
  end.

(** [series + 10] on a numeric Series. *)
Definition plus10 (dt : dtype) (v : cell) : cell :=
  match v with
  | Num n => Num (add10 dt n)
  | other => other
  end.

(** The campaign table with its derived column. *)
Record SizedRow : Type := mkSizedRow {
  base : CampaignRow;
  abs_user_gain : cell
}.

(** Line 518, on a frame whose [net_user_gain] column has dtype [dt]. *)
Definition add_abs_user_gain (dt : dtype) (cdf : list CampaignRow)
  : outcome (list SizedRow) :=
  magnitudes <- series_abs dt (map net_user_gain cdf) ;;
  Ok (map (fun rv => {| base := fst rv; abs_user_gain := snd rv |})
        (combine cdf (map (plus10 dt) magnitudes))).

(** Lines 510-518 of "app (13).py".  The dtype of [net_user_gain] is fixed
    by the coercion loop, before rows are dropped. *)
Definition prepare (parse : string -> option number) (campaign_df : list CampaignRow)
  : outcome (list SizedRow) :=
  let coerced := numeric_safety parse campaign_df in
  add_abs_user_gain (dtype_of (map net_user_gain coerced)) (dropna coerced).

(** What the loop of [numeric_safety] does to one row. *)
Definition coerce_row (parse : string -> option number) (r : CampaignRow)
  : CampaignRow :=
  {| campaign_name := campaign_name r;
     target_region := target_region r;
     target_genre := target_genre r;
     month := month r;
     users_before := coerce parse (users_before r);
     users_after := coerce parse (users_after r);
     net_user_gain := coerce parse (net_user_gain r);
     user_growth_pct := coerce parse (user_growth_pct r);
     premium_growth_pct := coerce parse (premium_growth_pct r);
     other_cells := other_cells r |}.

(** The missing markers and the numbers of a Series. *)
Definition count_missing (s : list cell) : nat := List.length (filter isna s).

Fixpoint numbers (s : list cell) : list number :=
  match s with
  | [] => []
  | Num q :: rest => q :: numbers rest
  | _ :: rest => numbers rest
  end.

Definition is_num (v : cell) : Prop := exists q, v = Num q.

(** The size of one campaign: magnitude of the gain plus the offset. *)
Definition size_of (dt : dtype) (v : cell) : cell :=
  match v with
  | Num n => Num (add10 dt (abs_number dt n))
  | other => other
  end.

(** A number above zero. *)
Definition positive_number (n : number) : Prop :=
  match n with
  | Int z => 0 < z
  | Real q => (0 < q)%Q
  | Inf b => b = true
  end.

(** A parser for plain decimal integers, used to instantiate [parse]. *)
Fixpoint digits_value (acc : Z) (s : string) : option Z :=
  match s with
  | EmptyString => Some acc
  | String c rest =>
      let n := Z.of_nat (nat_of_ascii c) in
      if (48 <=? n) && (n <=? 57) then digits_value (10 * acc + (n - 48)) rest
      else None
  end.

Definition parse_decimal (s : string) : option number :=
  match s with
  | EmptyString => None
  | String "-" (String _ _ as rest) =>
      option_map (fun z => Int (- z)) (digits_value 0 rest)
  | _ => option_map Int (digits_value 0 s)
  end.

End Campaign.

(** ** The frames as objects of the running script *)

Module Store.
Import Pandas App Campaign.

(** A data frame object. *)
Inductive object : Type :=
| StreamFrame (rows : Table)
| CampaignFrame (rows : list CampaignRow).

(** The objects allocated so far, addressed by position, and the names of
    the script, the latest binding of a name first. *)
Record state : Type := mkState {
  heap : list object;
  names : list (string * nat)
}.

Fixpoint assoc (x : string) (bindings : list (string * nat)) : option nat :=
  match bindings with
  | [] => None
  | (y, i) :: rest => if (x =? y)%string then Some i else assoc x rest
  end.

(** The object a name refers to. *)
Definition lookup (x : string) (st : state) : option nat := assoc x (names st).

Definition deref (i : nat) (st : state) : option object := nth_error (heap st) i.

(** A new object, at a position no name refers to yet. *)
Definition allocate (o : object) (st : state) : nat * state :=
  (List.length (heap st), {| heap := heap st ++ [o]; names := names st |}).

(** [x = <object>]: the name is bound, no object changes. *)
Definition bind_name (x : string) (i : nat) (st : state) : state :=
  {| heap := heap st; names := (x, i) :: names st |}.

Fixpoint replace_nth (i : nat) (o : object) (objects : list object) : list object :=
  match objects, i with
  | [], _ => []
  | _ :: rest, O => o :: rest
  | first :: rest, S j => first :: replace_nth j o rest
  end.

(** An object updated in place: every name that refers to it sees the new
    contents. *)
Definition update (i : nat) (o : object) (st : state) : state :=
  {| heap := replace_nth i o (heap st); names := names st |}.

(** The statements of the scripts that bind or change a frame. *)
Inductive stmt : Type :=
| LoadData (target : string) (csv : Table)
    (* df = load_data() *)
| BoolIndex (target source : string) (sel : Selection)
    (* filtered_df = df[mask] *)
| LoadCampaigns (target : string) (csv : list CampaignRow)
    (* campaign_df = load_campaigns() *)
| ToNumeric (target : string) (c : NumCol)
    (* campaign_df[c] = pd.to_numeric(campaign_df[c], errors="coerce") *)
| Dropna (target source : string).
    (* campaign_df = campaign_df.dropna(subset=[...]) *)

Section Exec.
Variable parse : string -> option number.

(** One statement; [None] when a name is unbound or refers to a frame of
    the other table. *)
Definition exec (s : stmt) (st : state) : option state :=
  match s with
  | LoadData target csv =>
      let (i, st') := allocate (StreamFrame csv) st in
      Some (bind_name target i st')
  | BoolIndex target source sel =>
      match lookup source st with
      | Some d =>
          match deref d st with
          | Some (StreamFrame rows) =>
              let (i, st') := allocate (StreamFrame (filtered_df rows sel)) st in
              Some (bind_name target i st')
          | _ => None
          end
      | None => None
      end
  | LoadCampaigns target csv =>
      let (i, st') := allocate (CampaignFrame csv) st in
      Some (bind_name target i st')
  | ToNumeric target c =>
      match lookup target st with
      | Some d =>
          match deref d st with
          | Some (CampaignFrame rows) =>
              Some (update d
                      (CampaignFrame
                         (assign_col c (to_numeric parse (map (get_col c) rows)) rows))
                      st)
          | _ => None
          end
      | None => None
      end
  | Dropna target source =>
      match lookup source st with
      | Some d =>
          match deref d st with
          | Some (CampaignFrame rows) =>
              let (i, st') := allocate (CampaignFrame (dropna rows)) st in
              Some (bind_name target i st')
          | _ => None
          end
      | None => None
      end
  end.

Fixpoint run (program : list stmt) (st : state) : option state :=
  match program with
  | [] => Some st
  | s :: rest =>
      match exec s st with
      | Some st' => run rest st'
      | None => None
      end
  end.
End Exec.


(** "app (13).py", lines 508 and 511-515. *)
Definition campaign_script (csv : list CampaignRow) : list stmt :=
  (LoadCampaigns "campaign_df" csv
   :: map (ToNumeric "campaign_df") num_cols
   ++ [Dropna "campaign_df" "campaign_df"])%list.

Definition empty_state : state := {| heap := []; names := [] |}.

End Store.

(** ** Sample data *)

Module Samples.
Import Pandas App.

Definition row (reg gen sub mon artist ctry : string) (s a : Z) : Row :=
  {| region := Some reg; genre := Some gen; subscription_type := Some sub;
     month := Some mon; artist_name := Some artist; country := Some ctry;
     streams := s; active_listeners := a; completion_rate := 1 # 2 |}.

Definition table : Table :=
  [ row "US" "Pop" "Premium" "2024-01" "Aria" "United States" 100 10;
    row "US" "Rock" "Free" "2024-01" "Blaze" "United States" 50 5;
    row "EU" "Pop" "Free" "2024-02" "Aria" "Germany" 70 8 ].

(** Every multiselect cleared. *)
Definition nothing_selected : Selection :=
  {| sel_region := []; sel_genre := []; sel_subscription := []; sel_month := [] |}.

Definition only_us : Selection :=
  {| sel_region := [Some "US"]; sel_genre := [Some "Pop"; Some "Rock"];
     sel_subscription := [Some "Premium"; Some "Free"];
     sel_month := [Some "2024-01"; Some "2024-02"] |}.

(** A filtered table that is not empty but counts no active listener. *)
Definition idle_table : Table :=
  [ row "EU" "Pop" "Free" "2024-02" "Aria" "Germany" 70 0 ].

Definition campaign (name : string) (gain : Campaign.cell) : Campaign.CampaignRow :=
  {| Campaign.campaign_name := Some name;
     Campaign.target_region := Some "US";
     Campaign.target_genre := Some "Pop";
     Campaign.month := Some "2024-01";
     Campaign.users_before := Campaign.Num (Campaign.Int 100);
     Campaign.users_after := Campaign.Num (Campaign.Int 120);
     Campaign.net_user_gain := gain;
     Campaign.user_growth_pct := Campaign.Num (Campaign.Real (5 # 2));
     Campaign.premium_growth_pct := Campaign.Num (Campaign.Int 3);
     Campaign.other_cells := [] |}.

(** The two campaigns of the sizing scenario. *)
Definition campaigns : list Campaign.CampaignRow :=
  [ campaign "Winter" (Campaign.Num (Campaign.Int (-5)));
    campaign "Summer" (Campaign.Num (Campaign.Int 20)) ].

(** A campaign table whose gains are all integers, one of them the
    smallest [int64]. *)
Definition extreme_campaigns : list Campaign.CampaignRow :=
  [ campaign "Crash" (Campaign.Num (Campaign.Int (-9223372036854775808)));
    campaign "Summer" (Campaign.Num (Campaign.Int 20)) ].

(** A streaming table with an empty cell: the second row has no region. *)
Definition table_with_gap : Table :=
  [ row "US" "Rock" "Free" "2024-01" "Blaze" "United States" 50 5;
    {| region := None; genre := Some "Pop"; subscription_type := Some "Free";
       month := Some "2024-01"; artist_name := None;
       country := Some "Germany"; streams := 100; active_listeners := 8;
       completion_rate := 1 # 2 |} ].

End Samples.

(** ** The charts of app.py *)

Module Visuals.
Import Pandas.

(** [frame.head(n)] *)
Definition head {A : Type} (n : nat) (frame : list A) : list A := firstn n frame.

(** The cells of an [int64] column. *)
Definition in_int64 (z : Z) : Prop := - 2 ^ 63 <= z < 2 ^ 63.

(** The value a Series holds under a label, if any. *)
Fixpoint series_get {K : Type} (cmp : K -> K -> comparison) (k : K)
  (s : list (K * Z)) : option Z :=
  match s with
  | [] => None
  | (k', v) :: rest =>
      match cmp k k' with
      | Eq => Some v
      | _ => series_get cmp k rest
      end
  end.

(** The labels of a Series increase strictly along the index. *)
Definition index_sorted {K : Type} (cmp : K -> K -> comparison)
  (s : list (K * Z)) : Prop :=
  StronglySorted (fun a b => cmp (fst a) (fst b) = Lt) s.

(** The rows of one group: those whose key cell holds the label. *)
Definition rows_of {A : Type} (key : A -> text) (k : string) (df : list A) : list A :=
  filter (fun r => eq_text (key r) (Some k)) df.

(** A frame ordered by decreasing value, whatever the order among equal
    values: what [sort_values(col, ascending=False)] guarantees. *)
Definition sorts_descending {K : Type}
  (sort_values : list (K * Z) -> list (K * Z)) : Prop :=
  forall s,
    Permutation (sort_values s) s
    /\ StronglySorted (fun a b => snd b <= snd a) (sort_values s).

Section Charts.
(** [sort_values("streams", ascending=False)] *)
Variable sort_values : list (string * Z) -> list (string * Z).

(** Lines 80-85. *)
Definition artist_df (filtered_df : Table) : list (string * Z) :=
  head 10 (sort_values (groupby_sum String.compare artist_name streams filtered_df)).

(** "app (10).py", lines 108-113: the same chart with the slider value. *)
Definition v1 (artist_limit : nat) (df : Table) : list (string * Z) :=
  head artist_limit (sort_values (groupby_sum String.compare artist_name streams df)).

(** "app (17).py", lines 1207-1213. *)
Definition drill_df (df : Table) (selected_country : text) : list (string * Z) :=
  head 5
    (sort_values
       (groupby_sum String.compare artist_name streams
          (filter (fun r => eq_text (country r) selected_country) df))).
End Charts.

(** Lines 122-125. *)
Definition trend_df (filtered_df : Table) : list (string * Z) :=
  groupby_sum String.compare month streams filtered_df.

(** Line 144: the options of the genre selectbox. *)
Definition genre_options (filtered_df : Table) : list text :=
  unique (map genre filtered_df).

(** Lines 147-151. *)
Definition fp_df (filtered_df : Table) (selected_genre : text) : list (string * Z) :=
  groupby_sum String.compare subscription_type streams
    (filter (fun r => eq_text (genre r) selected_genre) filtered_df).

(** The global selection narrowed to one genre. *)
Definition with_genre (sel : App.Selection) (g : text) : App.Selection :=
  {| App.sel_region := App.sel_region sel;
     App.sel_genre := [g];
     App.sel_subscription := App.sel_subscription sel;
     App.sel_month := App.sel_month sel |}.

(** One selection allows whatever another allows. *)
Definition narrower (sel sel' : App.Selection) : Prop :=
  incl (App.sel_region sel) (App.sel_region sel')
  /\ incl (App.sel_genre sel) (App.sel_genre sel')
  /\ incl (App.sel_subscription sel) (App.sel_subscription sel')
  /\ incl (App.sel_month sel) (App.sel_month sel').

(** The comparison is a strict total order on the labels. *)
Definition strict_order {K : Type} (cmp : K -> K -> comparison) : Prop :=
  (forall a b, cmp a b = Eq <-> a = b)
  /\ (forall a b, cmp a b = CompOpp (cmp b a))
  /\ (forall a b c, cmp a b = Lt -> cmp b c = Lt -> cmp a c = Lt).

(** The row belongs to the group labelled [k]. *)
Definition same_key {A K : Type} (cmp : K -> K -> comparison) (key : A -> option K)
  (k : K) (r : A) : bool :=
  match key r with
  | Some k' =>
      match cmp k' k with
      | Eq => true
      | _ => false
      end
  | None => false
  end.

(** The running total of one group: the first value opens the group, each
    later one is added with wrap-around. *)
Definition group_value (init : option Z) (values : list Z) : option Z :=
  fold_left
    (fun acc v =>
       Some match acc with
            | Some s => add64 s v
            | None => v
            end)
    values init.

(** An insertion sort by decreasing value, one instance of [sort_values]. *)
Fixpoint insert_desc {K : Type} (x : K * Z) (s : list (K * Z)) : list (K * Z) :=
  match s with
  | [] => [x]
  | y :: rest => if snd y <? snd x then x :: y :: rest else y :: insert_desc x rest
  end.

Definition sort_desc {K : Type} (s : list (K * Z)) : list (K * Z) :=
  fold_right insert_desc [] s.

End Visuals.

(** ** The campaign page of the later revisions *)

Module CampaignPage.
Import Pandas Campaign.

Definition isnull (v : text) : bool :=
  match v with
  | None => true
  | Some _ => false
  end.

(** "app (15).py", line 693: [dropna()] without a subset drops a row with a
    missing value in any column, named by the script or not. *)
Definition dropna_all (campaign_df : list CampaignRow) : list CampaignRow :=
  filter
    (fun r =>
       negb (isnull (campaign_name r))
       && negb (isnull (target_region r))
       && negb (isnull (target_genre r))
       && negb (isnull (month r))
       && negb (isna (users_before r))
       && negb (isna (users_after r))
       && negb (isna (net_user_gain r))
       && negb (isna (user_growth_pct r))
       && negb (isna (premium_growth_pct r))
       && forallb (fun v => negb (isna v)) (other_cells r))
    campaign_df.

(** Lines 689-693 of "app (15).py". *)
Definition prepare_all (parse : string -> option number) (campaign_df : list CampaignRow)
  : list CampaignRow :=
  dropna_all (numeric_safety parse campaign_df).

(** Lines 722-726: the three-column mask of the campaign page. *)
Definition cdf (campaign_df : list CampaignRow) (camp region_sel month_sel : list text)
  : list CampaignRow :=
  filter
    (fun r =>
       isin (campaign_name r) camp
       && isin (target_region r) region_sel
       && isin (month r) month_sel)
    campaign_df.

End CampaignPage.

(** ** More sample data *)

Module Fixtures.

Definition raw_campaign (name : Pandas.text) (before gain growth : Campaign.cell)
  : Campaign.CampaignRow :=
  {| Campaign.campaign_name := name;
     Campaign.target_region := Some "US";
     Campaign.target_genre := Some "Pop";
     Campaign.month := Some "2024-01";
     Campaign.users_before := before;
     Campaign.users_after := Campaign.Num (Campaign.Int 120);
     Campaign.net_user_gain := gain;
     Campaign.user_growth_pct := growth;
     Campaign.premium_growth_pct := Campaign.Num (Campaign.Int 3);
     Campaign.other_cells := [] |}.

Definition raw_campaigns : list Campaign.CampaignRow :=
  [ raw_campaign (Some "Winter") (Campaign.Str "100") (Campaign.Str "-5")
      (Campaign.Num (Campaign.Int 4));
    raw_campaign (Some "Summer") (Campaign.Str "unknown")
      (Campaign.Num (Campaign.Int 20)) (Campaign.Str "8");
    raw_campaign (Some "Autumn") (Campaign.Num (Campaign.Int 90))
      (Campaign.Str "n/a") (Campaign.Num (Campaign.Int 2));
    raw_campaign None (Campaign.Num (Campaign.Int 70))
      (Campaign.Num (Campaign.Int 9)) (Campaign.Num (Campaign.Int 1)) ].

(** Every subscription type deselected, the other filters left wide. *)
Definition no_subscription : App.Selection :=
  {| App.sel_region := [Some "US"; Some "EU"];
     App.sel_genre := [Some "Pop"; Some "Rock"];
     App.sel_subscription := [];
     App.sel_month := [Some "2024-01"; Some "2024-02"] |}.

End Fixtures.

(** * Properties *)

(** ** Membership, selection and sub-tables *)

Section ListFacts.
Import Pandas.

Lemma same_cell_eq (a b : text) : same_cell a b = true <-> a = b.
Proof.
  destruct a as [x|], b as [y|]; simpl; split; try congruence.
  - intros H. apply String.eqb_eq in H. now subst.
  - intros [= ->]. apply String.eqb_refl.
Qed.

Lemma isin_In v values : isin v values = true <-> In v values.
Proof.
  unfold isin. rewrite existsb_exists. split.
  - intros [x [Hx Heq]]. apply same_cell_eq in Heq. now subst.
  - intros H. exists v. split; [assumption | now apply same_cell_eq].
Qed.

Lemma unique_from_complete seen col v :
  In v col -> In v seen \/ In v (unique_from seen col).
Proof.
  revert seen. induction col as [|x rest IH]; intros seen Hin; [inversion Hin|].
  simpl. destruct (isin x seen) eqn:Hseen.
  - destruct Hin as [->|Hin].
    + left. now apply isin_In.
    + now apply IH.
  - destruct Hin as [->|Hin].
    + right. now left.
    + destruct (IH (x :: seen) Hin) as [[->|Hs]|Hu].
      * right. now left.
      * now left.
      * right. now right.
Qed.

Lemma unique_complete col v : In v col -> isin v (unique col) = true.
Proof.
  intros Hin. apply isin_In. unfold unique.
  destruct (unique_from_complete [] col v Hin) as [[]|H]. exact H.
Qed.

Context {A : Type}.
Variable f : A -> bool.

Lemma filter_Subtable (l : list A) : Subtable (filter f l) l.
Proof.
  induction l as [|x l IH]; simpl.
  - constructor.
  - destruct (f x); now constructor.
Qed.

Lemma filter_twice (l : list A) : filter f (filter f l) = filter f l.
Proof.
  apply forallb_filter_id, forallb_filter.
Qed.

Lemma filter_all (l : list A) :
  (forall x, In x l -> f x = true) -> filter f l = l.
Proof.
  intros H. apply forallb_filter_id, forallb_forall, H.
Qed.

Lemma Subtable_In (l' l : list A) x : Subtable l' l -> In x l' -> In x l.
Proof.
  induction 1; simpl; intuition.
Qed.

Lemma Subtable_length (l' l : list A) :
  Subtable l' l -> (List.length l' <= List.length l)%nat.
Proof.
  induction 1; simpl; lia.
Qed.
End ListFacts.

(** ** The constraint filter of app.py *)

Section Filter.
Import Pandas App.

Lemma mask_satisfies sel r : mask sel r = true <-> satisfies sel r.
Proof.
  unfold mask, satisfies. rewrite !andb_true_iff, !isin_In. tauto.
Qed.

Lemma default_selection_satisfied df r :
  In r df -> satisfies (default_selection df) r.
Proof.
  intros Hin. unfold satisfies, default_selection; simpl.
  repeat split; apply isin_In, unique_complete, in_map, Hin.
Qed.

(** C3. [filtered_df] keeps a sub-table of [df]; every row it keeps has a
    selected value in each of the four constrained columns; and a selection
    that allows every value observed in [df] - in particular the default
    selection of the sidebar - returns [df] unchanged. *)
Theorem filtered_df_sound (df : Table) (sel : Selection) :
  Subtable (filtered_df df sel) df
  /\ (forall r, In r (filtered_df df sel) -> In r df /\ satisfies sel r)
  /\ ((forall r, In r df -> satisfies sel r) -> filtered_df df sel = df)
  /\ filtered_df df (default_selection df) = df.
Proof.
  unfold filtered_df. split; [|split; [|split]].
  - apply filter_Subtable.
  - intros r Hr. apply filter_In in Hr as [Hin Hmask].
    split; [exact Hin | now apply mask_satisfies].
  - intros Hall. apply filter_all. intros r Hr. now apply mask_satisfies, Hall.
  - apply filter_all. intros r Hr.
    now apply mask_satisfies, default_selection_satisfied.
Qed.

(** C8. Filtering twice with the same selection is filtering once. *)
Theorem filtered_df_idempotent (df : Table) (sel : Selection) :
  filtered_df (filtered_df df sel) sel = filtered_df df sel.
Proof.
  unfold filtered_df. apply filter_twice.
Qed.
End Filter.

Lemma filtered_df_sound_witness :
  App.filtered_df Samples.table Samples.only_us
  = [ Samples.row "US" "Pop" "Premium" "2024-01" "Aria" "United States" 100 10;
      Samples.row "US" "Rock" "Free" "2024-01" "Blaze" "United States" 50 5 ]
  /\ Subtable (App.filtered_df Samples.table Samples.only_us) Samples.table
  /\ App.filtered_df Samples.table (App.default_selection Samples.table)
     = Samples.table.
Proof.
  split; [reflexivity|]. split.
  - apply (filtered_df_sound Samples.table Samples.only_us).
  - destruct (filtered_df_sound Samples.table
                (App.default_selection Samples.table)) as (_ & _ & Hall & _).
    apply Hall. intros r Hr. simpl in Hr.
    destruct Hr as [<-|[<-|[<-|[]]]]; vm_compute; tauto.
Defined.

(** ** Frames in the store *)

Section StoreFacts.
Import Pandas App Campaign Store.
Variable parse : string -> option number.




Lemma replace_nth_same (i : nat) (o : object) (objects : list object) :
  (i < List.length objects)%nat -> nth_error (replace_nth i o objects) i = Some o.
Proof.
  revert i. induction objects as [|first rest IH]; intros [|j] Hlt;
    simpl in *; try lia; [reflexivity|].
  apply IH. lia.
Qed.

Lemma replace_nth_other (i j : nat) (o : object) (objects : list object) :
  i <> j -> nth_error (replace_nth i o objects) j = nth_error objects j.
Proof.
  revert i j. induction objects as [|first rest IH]; intros [|i] [|j] Hne;
    simpl; try reflexivity; try congruence.
  apply IH. congruence.
Qed.






(** For contrast, the numeric coercion of the campaign table does change
    the object its name refers to, and binds no new one. *)
Lemma to_numeric_in_place (st : state) (c : NumCol) (d : nat)
  (rows : list CampaignRow) :
  lookup "campaign_df" st = Some d ->
  deref d st = Some (CampaignFrame rows) ->
  exists st',
    exec parse (ToNumeric "campaign_df" c) st = Some st'
    /\ lookup "campaign_df" st' = Some d
    /\ deref d st'
       = Some (CampaignFrame
                 (assign_col c (to_numeric parse (map (get_col c) rows)) rows))
    /\ forall i, i <> d -> deref i st' = deref i st.
Proof.
  intros Hname Hobj. simpl. rewrite Hname, Hobj.
  eexists. split; [reflexivity|]. split; [exact Hname|]. split.
  - unfold deref, update. simpl. apply replace_nth_same.
    apply nth_error_Some. unfold deref in Hobj. congruence.
  - intros i Hne. unfold deref, update. simpl.
    apply replace_nth_other. congruence.
Qed.

(** The statements of "app (13).py" leave [campaign_df] naming the coerced
    table without its incomplete rows. *)
Lemma campaign_script_result (csv : list CampaignRow) :
  exists st d,
    run parse (campaign_script csv) empty_state = Some st
    /\ lookup "campaign_df" st = Some d
    /\ deref d st = Some (CampaignFrame (dropna (numeric_safety parse csv))).
Proof.
  eexists. exists 1%nat. repeat split.
Qed.
End StoreFacts.


(** ** Wrap-around sums *)

Section Sums.
Import Pandas.

Lemma wrap64_add_l a b : wrap64 (wrap64 a + b) = wrap64 (a + b).
Proof.
  unfold wrap64.
  replace ((a + 2 ^ 63) mod 2 ^ 64 - 2 ^ 63 + b + 2 ^ 63)
    with ((a + 2 ^ 63) mod 2 ^ 64 + b) by ring.
  rewrite Z.add_mod_idemp_l by (compute; discriminate).
  f_equal. f_equal. ring.
Qed.

Lemma wrap64_add_r a b : wrap64 (a + wrap64 b) = wrap64 (a + b).
Proof.
  rewrite (Z.add_comm a (wrap64 b)), wrap64_add_l. f_equal. ring.
Qed.

Lemma wrap64_idem a : wrap64 (wrap64 a) = wrap64 a.
Proof.
  transitivity (wrap64 (wrap64 a + 0)).
  - f_equal. ring.
  - rewrite wrap64_add_l. f_equal. ring.
Qed.

Lemma wrap64_0 : wrap64 0 = 0.
Proof. reflexivity. Qed.

Section ColSum.
Context {A : Type}.
Variable val : A -> Z.

Lemma fold_add64 (l : list A) (acc : Z) :
  wrap64 (fold_left (fun a r => add64 a (val r)) l acc)
  = wrap64 (acc + zsum (map val l)).
Proof.
  revert acc. induction l as [|r l IH]; intros acc; simpl.
  - f_equal. ring.
  - rewrite IH. unfold add64. rewrite wrap64_add_l. f_equal. ring.
Qed.

Lemma fold_add64_wrapped (l : list A) (acc : Z) :
  wrap64 acc = acc ->
  wrap64 (fold_left (fun a r => add64 a (val r)) l acc)
  = fold_left (fun a r => add64 a (val r)) l acc.
Proof.
  revert acc. induction l as [|r l IH]; intros acc Hacc; simpl.
  - exact Hacc.
  - apply IH. unfold add64. apply wrap64_idem.
Qed.

(** The column sum is the exact total, wrapped once. *)
Lemma col_sum_zsum (l : list A) : col_sum val l = wrap64 (zsum (map val l)).
Proof.
  unfold col_sum. rewrite <- fold_add64_wrapped by apply wrap64_0.
  rewrite fold_add64. reflexivity.
Qed.
End ColSum.

Context {A K : Type}.
Variable cmp : K -> K -> comparison.
Variable key : A -> option K.
Variable val : A -> Z.

Lemma add_to_group_total k v (groups : list (K * Z)) :
  wrap64 (zsum (map snd (add_to_group cmp k v groups)))
  = wrap64 (zsum (map snd groups) + v).
Proof.
  induction groups as [|[k' s] rest IH]; simpl.
  - f_equal. ring.
  - destruct (cmp k k'); simpl.
    + unfold add64. rewrite wrap64_add_l. f_equal. ring.
    + f_equal. ring.
    + rewrite <- wrap64_add_r, IH, wrap64_add_r. f_equal. ring.
Qed.

Lemma fold_groups_total (l : list A) (groups : list (K * Z)) :
  wrap64 (zsum (map snd (fold_left (add_row cmp key val) l groups)))
  = wrap64 (zsum (map snd groups)
            + zsum (map val (filter (contributes key) l))).
Proof.
  revert groups. induction l as [|r l IH]; intros groups; simpl.
  - f_equal. ring.
  - rewrite IH. unfold add_row, contributes. destruct (key r) as [k|]; simpl.
    + rewrite <- wrap64_add_l, add_to_group_total, wrap64_add_l.
      f_equal. ring.
    + reflexivity.
Qed.

Lemma groupby_sum_total (l : list A) :
  series_sum (groupby_sum cmp key val l)
  = col_sum val (filter (contributes key) l).
Proof.
  unfold series_sum. rewrite !col_sum_zsum. unfold groupby_sum.
  rewrite fold_groups_total. reflexivity.
Qed.

Lemma add_to_group_nonempty k v (groups : list (K * Z)) :
  add_to_group cmp k v groups <> [].
Proof.
  destruct groups as [|[k' s] rest]; simpl; [discriminate|].
  destruct (cmp k k'); discriminate.
Qed.

Lemma fold_groups_nonempty (l : list A) (groups : list (K * Z)) :
  groups <> [] -> fold_left (add_row cmp key val) l groups <> [].
Proof.
  revert groups. induction l as [|r l IH]; intros groups Hg; simpl.
  - exact Hg.
  - apply IH. unfold add_row. destruct (key r); [|exact Hg].
    apply add_to_group_nonempty.
Qed.

(** A grouped sum is empty exactly when no row has a key. *)
Lemma groupby_sum_empty (l : list A) :
  groupby_sum cmp key val l = [] <-> forall r, In r l -> key r = None.
Proof.
  unfold groupby_sum. induction l as [|r l IH]; simpl.
  - split; [intros _ r [] | reflexivity].
  - unfold add_row at 2. destruct (key r) as [k|] eqn:Hk.
    + split.
      * intros Hnil. exfalso.
        eapply fold_groups_nonempty; [|exact Hnil]. discriminate.
      * intros Hnone. specialize (Hnone r (or_introl eq_refl)). congruence.
    + rewrite IH. split.
      * intros Hl x [<-|Hx]; [exact Hk | now apply Hl].
      * intros Hl x Hx. apply Hl. now right.
Qed.

Lemma idxmax_returns (s : list (K * Z)) : s <> [] -> returns (idxmax s).
Proof.
  destruct s as [|[k v] rest]; [congruence|]. intros _.
  eexists. reflexivity.
Qed.
End Sums.

(** ** Grouped sums *)

Section Aggregation.
Import Pandas.

Lemma pair_key_present (a b : text) :
  pair_key a b <> None <-> a <> None /\ b <> None.
Proof.
  destruct a, b; simpl; split; intros H;
    try congruence; try tauto; try (split; congruence).
Qed.

(** C4. Summing the reduced column of a grouped sum gives the sum of the
    value column over exactly the rows that were grouped - those whose key
    is present - for any key (one column or a tuple of columns) and any
    value column.  For [genre_region] those rows are the rows of the
    filtered table that have both a region and a genre, for [map_df] the
    rows of the chosen genre that have a country and a region; when no key
    is missing they are all the rows. *)
Theorem groupby_sum_preserves_total
  {A K : Type} (cmp : K -> K -> comparison) (key : A -> option K) (val : A -> Z)
  (T : list A) (fdf : Table) (map_genre : text) :
  series_sum (groupby_sum cmp key val T)
  = col_sum val (filter (contributes key) T)
  /\ ((forall r, In r T -> key r <> None) ->
      series_sum (groupby_sum cmp key val T) = col_sum val T)
  /\ series_sum (App.genre_region fdf)
     = col_sum streams (filter (contributes App.region_genre) fdf)
  /\ series_sum (Dashboard.map_df fdf map_genre)
     = col_sum streams
         (filter (contributes Dashboard.country_region)
            (filter (fun r => eq_text (genre r) map_genre) fdf))
  /\ (forall r, contributes App.region_genre r = true
                <-> region r <> None /\ genre r <> None)
  /\ (forall r, contributes Dashboard.country_region r = true
                <-> country r <> None /\ region r <> None).
Proof.
  split; [apply groupby_sum_total|].
  split.
  { intros Hall. rewrite groupby_sum_total. f_equal. apply filter_all.
    intros r Hr. unfold contributes. specialize (Hall r Hr).
    destruct (key r); congruence. }
  split; [apply groupby_sum_total|].
  split; [apply groupby_sum_total|].
  split; intros r; unfold contributes, App.region_genre, Dashboard.country_region.
  - rewrite <- pair_key_present.
    destruct (pair_key (region r) (genre r)); split; congruence.
  - rewrite <- pair_key_present.
    destruct (pair_key (country r) (region r)); split; congruence.
Qed.

Lemma groupby_sum_preserves_total_witness :
  series_sum (App.genre_region Samples.table) = App.total_streams Samples.table
  /\ series_sum (App.genre_region Samples.table_with_gap) = 50
  /\ App.total_streams Samples.table_with_gap = 150.
Proof.
  split; [|split; reflexivity].
  destruct (groupby_sum_preserves_total App.pair_compare App.region_genre
              streams Samples.table Samples.table (Some "Pop"))
    as (_ & Hall & _).
  apply Hall. intros r Hr. simpl in Hr.
  destruct Hr as [<-|[<-|[<-|[]]]]; discriminate.
Defined.
End Aggregation.

(** ** The KPI block *)

Section Kpi.
Import Pandas App.

Lemma truediv_finite a b : b <> 0 -> is_finite (truediv a b) = true.
Proof.
  intros Hb. unfold truediv. apply Z.eqb_neq in Hb. now rewrite Hb.
Qed.

Lemma premium_share_finite (fdf : Table) : is_finite (premium_share fdf) = true.
Proof.
  unfold premium_share. destruct (0 <? active_users fdf) eqn:Hpos; [|reflexivity].
  apply Z.ltb_lt in Hpos.
  pose proof (truediv_finite
    (col_sum active_listeners
       (filter (fun r => eq_text (subscription_type r) (Some "Premium")) fdf))
    (active_users fdf)) as Hfin.
  destruct (truediv _ (active_users fdf)); simpl in *;
    try reflexivity; apply Hfin; lia.
Qed.

Lemma premium_share_fallback (fdf : Table) :
  active_users fdf <= 0 -> premium_share fdf = Fin 0.
Proof.
  intros Hle. unfold premium_share.
  destruct (0 <? active_users fdf) eqn:Hpos; [|reflexivity].
  apply Z.ltb_lt in Hpos. lia.
Qed.




(** C2, at the failing input.  On a filtered table that has rows but no
    active listener, the "Premium Share (%)" tile of the later revisions
    divides zero by zero and shows [nan]; the KPI row completes with that
    value.  The guarded expression of app.py answers [0] on the same table. *)
Theorem premium_share_metric_unguarded :
  Dashboard.premium_share_metric Samples.idle_table = NaN
  /\ Dashboard.kpi_row Samples.idle_table = Ok (70, 0, "Aria", NaN)
  /\ premium_share Samples.idle_table = Fin 0.
Proof.
  repeat split.
Qed.

(** C10. Whenever the selection leaves no row, the KPI block of app.py runs
    to completion: the active-listener total is [0], the top artist is the
    sentinel ["N/A"] and the premium share is [0]. *)
Theorem kpis_on_empty_selection (df : Table) (sel : Selection) :
  filtered_df df sel = [] ->
  active_users (filtered_df df sel) = 0
  /\ top_artist (filtered_df df sel) = Ok "N/A"
  /\ premium_share (filtered_df df sel) = Fin 0
  /\ kpis (filtered_df df sel)
     = Ok {| kpi_total_streams := 0; kpi_active_users := 0;
             kpi_top_artist := "N/A"; kpi_premium_share := Fin 0 |}.
Proof.
  intros Hempty. rewrite Hempty. repeat split.
Qed.

Lemma kpis_on_empty_selection_witness :
  filtered_df Samples.table Samples.nothing_selected = []
  /\ kpis (filtered_df Samples.table Samples.nothing_selected)
     = Ok {| kpi_total_streams := 0; kpi_active_users := 0;
             kpi_top_artist := "N/A"; kpi_premium_share := Fin 0 |}.
Proof.
  split; [reflexivity|].
  apply (kpis_on_empty_selection Samples.table Samples.nothing_selected).
  reflexivity.
Defined.
End Kpi.

(** ** Market-signal classification *)

Section Classification.
Import Pandas Dashboard.

Lemma ge_Fin (x t : Q) : ge (Fin x) (Fin t) = true <-> (t <= x)%Q.
Proof. simpl. apply Qle_bool_iff. Qed.

Lemma ge_Fin_false (x t : Q) : ge (Fin x) (Fin t) = false <-> (x < t)%Q.
Proof.
  rewrite <- not_true_iff_false, ge_Fin. split.
  - apply Qnot_le_lt.
  - apply Qlt_not_le.
Qed.

(** C5. With thresholds [q40 <= q75], a value at or above [q75] is labelled
    High, a value in [q40, q75) Moderate and a value below [q40] Low; a value
    equal to a threshold falls in the upper bucket.  For the values
    [10, 20, 30, 40] the interpolated quantiles are 32.5 and 22, and with
    them 32.5 is High and 22 is Moderate. *)
Theorem classify_buckets (map_genre : string) (x q75 q40 : Q) :
  (q40 <= q75)%Q ->
  ((q75 <= x)%Q ->
     classify map_genre (Fin q75) (Fin q40) (Fin x)
     = "High " ++ map_genre ++ " adoption market")
  /\ ((q40 <= x)%Q -> (x < q75)%Q ->
     classify map_genre (Fin q75) (Fin q40) (Fin x)
     = "Moderate " ++ map_genre ++ " adoption market")
  /\ ((x < q40)%Q ->
     classify map_genre (Fin q75) (Fin q40) (Fin x)
     = "Low " ++ map_genre ++ " adoption market")
  /\ classify map_genre (Fin q75) (Fin q40) (Fin q75)
     = "High " ++ map_genre ++ " adoption market"
  /\ float_eq (quantile [10; 20; 30; 40] (75 # 100)) (Fin (65 # 2))
  /\ float_eq (quantile [10; 20; 30; 40] (40 # 100)) (Fin 22)
  /\ classify map_genre (quantile [10; 20; 30; 40] (75 # 100))
       (quantile [10; 20; 30; 40] (40 # 100)) (Fin (65 # 2))
     = "High " ++ map_genre ++ " adoption market"
  /\ classify map_genre (quantile [10; 20; 30; 40] (75 # 100))
       (quantile [10; 20; 30; 40] (40 # 100)) (Fin 22)
     = "Moderate " ++ map_genre ++ " adoption market".
Proof.
  intros Hord. unfold classify. repeat split.
  - intros Hhigh. apply ge_Fin in Hhigh. now rewrite Hhigh.
  - intros Hlow Hup. apply ge_Fin in Hlow. apply ge_Fin_false in Hup.
    now rewrite Hup, Hlow.
  - intros Hlow.
    assert (Hup : (x < q75)%Q) by (eapply Qlt_le_trans; eassumption).
    apply ge_Fin_false in Hlow, Hup. now rewrite Hup, Hlow.
  - assert (H : ge (Fin q75) (Fin q75) = true) by (apply ge_Fin, Qle_refl).
    now rewrite H.
Qed.

Lemma classify_buckets_witness :
  (22 <= 65 # 2)%Q
  /\ classify "Pop" (Fin (65 # 2)) (Fin 22) (Fin (65 # 2))
     = "High Pop adoption market"
  /\ classify "Pop" (Fin (65 # 2)) (Fin 22) (Fin 22)
     = "Moderate Pop adoption market".
Proof.
  assert (Hord : (22 <= 65 # 2)%Q) by (vm_compute; discriminate).
  split; [exact Hord|]. split.
  - destruct (classify_buckets "Pop" (65 # 2) (65 # 2) 22 Hord) as (Hhigh & _).
    apply Hhigh. apply Qle_refl.
  - destruct (classify_buckets "Pop" 22 (65 # 2) 22 Hord) as (_ & Hmod & _).
    apply Hmod.
    + apply Qle_refl.
    + reflexivity.
Defined.
End Classification.

(** ** Numeric coercion of the campaign table *)

Section CoercionFacts.
Import Campaign.
Variable parse : string -> option number.

Lemma assign_col_coerce (c : NumCol) (d : list CampaignRow) :
  assign_col c (to_numeric parse (map (get_col c) d)) d
  = map (fun r => set_col c (coerce parse (get_col c r)) r) d.
Proof.
  unfold assign_col, to_numeric.
  induction d as [|r d IH]; simpl; [reflexivity|].
  now rewrite IH.
Qed.

Lemma numeric_safety_rows (cdf : list CampaignRow) :
  numeric_safety parse cdf = map (coerce_row parse) cdf.
Proof.
  unfold numeric_safety, num_cols. simpl.
  rewrite !assign_col_coerce, !map_map.
  apply map_ext. intros []. reflexivity.
Qed.

Lemma coerce_not_text (v : cell) :
  is_num (coerce parse v) \/ coerce parse v = Missing.
Proof.
  destruct v as [q|s|]; simpl.
  - left. now exists q.
  - destruct (parse s) as [q|]; [left; now exists q | now right].
  - now right.
Qed.

Lemma count_missing_app (s t : list cell) :
  count_missing (s ++ t) = (count_missing s + count_missing t)%nat.
Proof.
  unfold count_missing. now rewrite filter_app, length_app.
Qed.

Lemma numbers_app (s t : list cell) : numbers (s ++ t) = (numbers s ++ numbers t)%list.
Proof.
  induction s as [|[q|x|] s IH]; simpl; now rewrite ?IH.
Qed.

(** A Series of parseable texts coerces to their parsed values. *)
Lemma to_numeric_valid (texts : list string) :
  Forall (fun s => parse s <> None) texts ->
  count_missing (to_numeric parse (map Str texts)) = 0%nat
  /\ map Some (numbers (to_numeric parse (map Str texts))) = map parse texts.
Proof.
  induction 1 as [|s texts Hs _ [IHc IHn]]; [now split|].
  unfold count_missing in *. simpl.
  destruct (parse s) as [q|] eqn:Hq; [|congruence]. simpl.
  split; [exact IHc | now rewrite IHn].
Qed.

(** C6. [to_numeric] with [errors="coerce"] is a total function that keeps
    the length of the Series: a text the parser accepts becomes the parsed
    number, a text it rejects becomes the missing marker, numbers stay.  The
    coercion loop rewrites the five numeric columns of every row and drops
    no row.  A Series of texts with one rejected entry among accepted ones
    gets exactly one missing marker, and its numbers are the parsed values
    of the others, in order. *)
Theorem to_numeric_coerces (series : list cell) (cdf : list CampaignRow) :
  List.length (to_numeric parse series) = List.length series
  /\ (forall i s q, nth_error series i = Some (Str s) -> parse s = Some q ->
        nth_error (to_numeric parse series) i = Some (Num q))
  /\ (forall i s, nth_error series i = Some (Str s) -> parse s = None ->
        nth_error (to_numeric parse series) i = Some Missing)
  /\ (forall i q, nth_error series i = Some (Num q) ->
        nth_error (to_numeric parse series) i = Some (Num q))
  /\ numeric_safety parse cdf = map (coerce_row parse) cdf
  /\ List.length (numeric_safety parse cdf) = List.length cdf
  /\ (forall pre bad post,
        parse bad = None ->
        Forall (fun s => parse s <> None) (pre ++ post)%list ->
        count_missing (to_numeric parse (map Str (pre ++ bad :: post)%list)) = 1%nat
        /\ map Some (numbers (to_numeric parse (map Str (pre ++ bad :: post)%list)))
           = map parse (pre ++ post)%list).
Proof.
  split; [apply length_map|].
  split; [intros i s q Hi Hq; unfold to_numeric;
          rewrite nth_error_map, Hi; simpl; now rewrite Hq|].
  split; [intros i s Hi Hq; unfold to_numeric;
          rewrite nth_error_map, Hi; simpl; now rewrite Hq|].
  split; [intros i q Hi; unfold to_numeric; now rewrite nth_error_map, Hi|].
  split; [apply numeric_safety_rows|].
  split; [rewrite numeric_safety_rows; apply length_map|].
  intros pre bad post Hbad Hvalid.
  apply Forall_app in Hvalid as [Hpre Hpost].
  destruct (to_numeric_valid pre Hpre) as [Hc1 Hn1].
  destruct (to_numeric_valid post Hpost) as [Hc2 Hn2].
  unfold to_numeric in *. rewrite !map_app. split.
  - rewrite count_missing_app, Hc1. simpl. rewrite Hbad.
    unfold count_missing in *. simpl. now rewrite Hc2.
  - rewrite numbers_app, !map_app, Hn1. simpl. rewrite Hbad. now rewrite Hn2.
Qed.
End CoercionFacts.

Lemma to_numeric_coerces_witness :
  Campaign.to_numeric Campaign.parse_decimal
    (map Campaign.Str ["12"; "-3"; "abc"; "7"])
  = [Campaign.Num (Campaign.Int 12); Campaign.Num (Campaign.Int (-3));
     Campaign.Missing; Campaign.Num (Campaign.Int 7)]
  /\ Campaign.count_missing
       (Campaign.to_numeric Campaign.parse_decimal
          (map Campaign.Str (["12"; "-3"] ++ "abc" :: ["7"])%list)) = 1%nat.
Proof.
  split; [reflexivity|].
  destruct (to_numeric_coerces Campaign.parse_decimal [] [])
    as (_ & _ & _ & _ & _ & _ & Hone).
  apply (Hone ["12"; "-3"] "abc" ["7"]).
  - reflexivity.
  - repeat constructor; discriminate.
Defined.

(** ** The size column of the campaign table *)

Section Sizing.
Import Pandas Campaign.

Lemma series_abs_numeric (dt : dtype) (s : list cell) :
  Forall is_num s ->
  series_abs dt s
  = Ok (map (fun v => match v with
                      | Num n => Num (abs_number dt n)
                      | other => other
                      end) s).
Proof.
  induction 1 as [|v s [q ->] _ IH]; simpl; [reflexivity|].
  now rewrite IH.
Qed.

Lemma add_abs_user_gain_numeric (dt : dtype) (cdf : list CampaignRow) :
  Forall (fun r => is_num (net_user_gain r)) cdf ->
  add_abs_user_gain dt cdf
  = Ok (map (fun r => {| base := r;
                         abs_user_gain := size_of dt (net_user_gain r) |}) cdf).
Proof.
  intros Hnum. unfold add_abs_user_gain.
  rewrite series_abs_numeric by (apply Forall_map; exact Hnum). simpl.
  f_equal. induction Hnum as [|r cdf [q Hq] _ IH]; simpl; [reflexivity|].
  rewrite IH, Hq. reflexivity.
Qed.

Lemma dropna_numeric (parse : string -> option number) (cdf : list CampaignRow) :
  Forall (fun r => is_num (net_user_gain r)) (dropna (numeric_safety parse cdf)).
Proof.
  apply Forall_forall. intros r Hr. unfold dropna in Hr.
  apply filter_In in Hr as [Hin Hkeep].
  rewrite numeric_safety_rows in Hin. apply in_map_iff in Hin as [r0 [<- _]].
  simpl in *. destruct (coerce_not_text parse (net_user_gain r0)) as [Hn|Hm].
  - exact Hn.
  - rewrite Hm in Hkeep. simpl in Hkeep.
    rewrite andb_false_r in Hkeep. discriminate.
Qed.

(** The preparation never raises: it sizes every row the drop keeps. *)
Lemma prepare_sizes (parse : string -> option number)
  (campaign_df : list CampaignRow) :
  prepare parse campaign_df
  = Ok (map (fun r =>
               {| base := r;
                  abs_user_gain :=
                    size_of
                      (dtype_of (map net_user_gain (numeric_safety parse campaign_df)))
                      (net_user_gain r) |})
          (dropna (numeric_safety parse campaign_df))).
Proof.
  unfold prepare. apply add_abs_user_gain_numeric, dropna_numeric.
Qed.

Lemma abs64_range (z : Z) :
  Z.abs z <= 2 ^ 63 - 11 -> add64 (wrap64 (Z.abs z)) 10 = Z.abs z + 10.
Proof.
  intros Hz. unfold add64. rewrite wrap64_add_l.
  unfold wrap64. rewrite Z.mod_small; lia.
Qed.

(** The size of a gain is positive, except where [int64] arithmetic wraps. *)
Lemma size_positive (dt : dtype) (n : number) :
  dt = float64 \/ (forall z, n = Int z -> Z.abs z <= 2 ^ 63 - 11) ->
  positive_number (add10 dt (abs_number dt n)).
Proof.
  assert (Hq : forall q, (0 < Qabs q + 10)%Q).
  { intros q. pose proof (Qabs_nonneg q). lra. }
  intros [->|Hsmall].
  - destruct n as [z|q|b]; cbn [add10 abs_number positive_number];
      try apply Hq; reflexivity.
  - destruct dt, n as [z|q|b]; cbn [add10 abs_number positive_number];
      try apply Hq; try reflexivity.
    rewrite abs64_range by now apply Hsmall. lia.
Qed.

(** C7, at the failing input.  A campaign table whose gains are all
    integers keeps an [int64] gain column; for the smallest [int64] the
    absolute value wraps to itself, and the size is negative.  Gains of -5
    and 20 give sizes 15 and 30. *)
Theorem abs_user_gain_int64_minimum (parse : string -> option number) :
  (exists rows,
      prepare parse Samples.extreme_campaigns = Ok rows
      /\ map (fun r => net_user_gain (base r)) rows
         = [Num (Int (-9223372036854775808)); Num (Int 20)]
      /\ map abs_user_gain rows
         = [Num (Int (-9223372036854775798)); Num (Int 30)])
  /\ (exists rows,
        prepare parse Samples.campaigns = Ok rows
        /\ map (fun r => net_user_gain (base r)) rows = [Num (Int (-5)); Num (Int 20)]
        /\ map abs_user_gain rows = [Num (Int 15); Num (Int 30)]).
Proof.
  split; eexists; (split; [reflexivity|]); split; reflexivity.
Qed.
End Sizing.

(** * Further properties of the scripts *)

(** ** Distinct values and the sidebar filter *)

Section MoreFilter.
Import Pandas App Visuals.

Lemma text_dec (a b : text) : {a = b} + {a <> b}.
Proof.
  decide equality. apply string_dec.
Qed.

Lemma unique_from_spec (col seen : list text) :
  NoDup (unique_from seen col)
  /\ (forall v, In v (unique_from seen col) <-> In v col /\ ~ In v seen)
  /\ Subtable (unique_from seen col) col.
Proof.
  revert seen. induction col as [|x rest IH]; intros seen; simpl.
  - repeat split; try constructor; tauto.
  - destruct (isin x seen) eqn:Hx.
    + apply isin_In in Hx.
      destruct (IH seen) as (Hnd & Hin & Hsub).
      split; [exact Hnd|]. split; [|now constructor].
      intros v. rewrite Hin. split.
      * tauto.
      * intros [[->|Hv] Hns]; tauto.
    + assert (Hns : ~ In x seen).
      { intros Hc. apply isin_In in Hc. congruence. }
      destruct (IH (x :: seen)) as (Hnd & Hin & Hsub).
      split; [|split; [|now constructor]].
      * constructor; [|exact Hnd]. rewrite Hin. simpl. tauto.
      * intros v. simpl. rewrite Hin. simpl.
        destruct (text_dec x v) as [->|Hne]; tauto.
Qed.

Lemma unique_In (col : list text) (v : text) :
  In v (unique col) <-> In v col.
Proof.
  unfold unique. destruct (unique_from_spec col []) as (_ & Hin & _).
  rewrite Hin. simpl. tauto.
Qed.

Lemma isin_cons (v x : text) (l : list text) :
  isin v (x :: l) = same_cell v x || isin v l.
Proof. reflexivity. Qed.

(** A value met at the end of the column is appended when it is new and
    skipped when it was seen. *)
Lemma unique_from_snoc (col seen : list text) (v : text) :
  unique_from seen (col ++ [v])
  = if isin v seen || isin v col
    then unique_from seen col
    else (unique_from seen col ++ [v])%list.
Proof.
  revert seen. induction col as [|x rest IH]; intros seen; simpl.
  - rewrite orb_false_r. now destruct (isin v seen).
  - fold (isin v rest).
    destruct (isin x seen) eqn:Hx.
    + rewrite IH. destruct (same_cell v x) eqn:Hvx; simpl; [|reflexivity].
      apply same_cell_eq in Hvx. subst x. rewrite Hx. reflexivity.
    + rewrite IH, isin_cons.
      destruct (same_cell v x), (isin v seen), (isin v rest); reflexivity.
Qed.

(** X1. [unique] lists every value of the column once, in the order in which
    the column first shows them: no duplicate, the same members, a
    subsequence; and, reading the column from its start, a value is put at
    the end of the result when it has not occurred before and left out when
    it has. *)
Theorem unique_distinct (col : list text) (v : text) :
  NoDup (unique col)
  /\ (forall x, In x (unique col) <-> In x col)
  /\ Subtable (unique col) col
  /\ unique [] = []
  /\ unique (col ++ [v])
     = if isin v col then unique col else (unique col ++ [v])%list.
Proof.
  destruct (unique_from_spec col []) as (Hnd & _ & Hsub).
  split; [exact Hnd|]. split; [intros x; apply unique_In|].
  split; [exact Hsub|]. split; [reflexivity|].
  unfold unique. now rewrite unique_from_snoc.
Qed.

Lemma filter_none {A : Type} (f : A -> bool) (l : list A) :
  (forall x, In x l -> f x = false) -> filter f l = [].
Proof.
  induction l as [|x l IH]; intros Hf; simpl; [reflexivity|].
  rewrite (Hf x) by now left. apply IH. intros y Hy. apply Hf. now right.
Qed.

Lemma filter_both {A : Type} (f g : A -> bool) (l : list A) :
  filter f (filter g l) = filter (fun x => g x && f x) l.
Proof.
  induction l as [|x l IH]; simpl; [reflexivity|].
  destruct (g x); simpl; [destruct (f x)|]; now rewrite IH.
Qed.

(** X2. Clearing any one of the four multiselects leaves no row, whatever
    the other three allow. *)
Theorem filtered_df_cleared (df : Table) (sel : Selection) :
  sel_region sel = [] \/ sel_genre sel = []
  \/ sel_subscription sel = [] \/ sel_month sel = [] ->
  filtered_df df sel = [].
Proof.
  intros Hclear. apply filter_none. intros r _. unfold mask.
  destruct Hclear as [H|[H|[H|H]]]; rewrite H; simpl;
    rewrite ?andb_false_r; reflexivity.
Qed.

Lemma filtered_df_cleared_witness :
  filtered_df Samples.table Fixtures.no_subscription = [].
Proof.
  apply filtered_df_cleared. right. right. left. reflexivity.
Defined.
End MoreFilter.

Section FilterComposition.
Import Pandas App Visuals.

Lemma narrower_mask (sel sel' : Selection) (r : Row) :
  narrower sel sel' -> mask sel r = true -> mask sel' r = true.
Proof.
  intros (Hr & Hg & Hs & Hm) Hmask.
  apply mask_satisfies in Hmask as (H1 & H2 & H3 & H4).
  apply mask_satisfies. repeat split; auto.
Qed.

(** X3. Narrowing a selection narrows the view: filtering a view again with
    a narrower selection is filtering the source with it, so the narrower
    view is a sub-table of the wider one.  Two selections applied one after
    the other give the same view in either order. *)
Theorem filtered_df_narrower (df : Table) (sel sel' other : Selection) :
  narrower sel sel' ->
  filtered_df (filtered_df df sel') sel = filtered_df df sel
  /\ Subtable (filtered_df df sel) (filtered_df df sel')
  /\ filtered_df (filtered_df df sel) other
     = filtered_df (filtered_df df other) sel.
Proof.
  intros Hn. unfold filtered_df.
  assert (Heq : filter (mask sel) (filter (mask sel') df) = filter (mask sel) df).
  { rewrite filter_both. apply filter_ext. intros r.
    destruct (mask sel r) eqn:Hm.
    - now rewrite (narrower_mask sel sel' r Hn Hm).
    - apply andb_false_r. }
  split; [exact Heq|]. split.
  - rewrite <- Heq. apply filter_Subtable.
  - rewrite !filter_both. apply filter_ext. intros r. apply andb_comm.
Qed.

Lemma filtered_df_narrower_witness :
  filtered_df (filtered_df Samples.table (default_selection Samples.table))
    Samples.only_us
  = filtered_df Samples.table Samples.only_us.
Proof.
  apply (filtered_df_narrower Samples.table Samples.only_us
           (default_selection Samples.table) Samples.nothing_selected).
  repeat split; intros v Hv; simpl in *; tauto.
Defined.

Lemma eq_text_missing (a : text) : eq_text a None = false.
Proof. now destruct a. Qed.

Lemma eq_text_same_cell (a : text) (g : string) :
  eq_text a (Some g) = same_cell a (Some g).
Proof. now destruct a. Qed.

(** X4. The genre offered by the selectbox of the last chart is a value of
    the filtered table's genre column, hence one the sidebar allows.  When
    it is a genre, the chart's own filter on top of the global one is the
    global filter narrowed to that genre; when it is the missing value, the
    comparison matches no row and the chart is empty.  The chart is empty
    exactly when no row of the chosen genre has a subscription type. *)
Theorem fp_df_narrows (df : Table) (sel : Selection) (selected_genre : text) :
  In selected_genre (genre_options (filtered_df df sel)) ->
  In selected_genre (sel_genre sel)
  /\ (selected_genre <> None ->
      filter (fun r => eq_text (genre r) selected_genre) (filtered_df df sel)
      = filtered_df df (with_genre sel selected_genre)
      /\ fp_df (filtered_df df sel) selected_genre
         = groupby_sum String.compare subscription_type streams
             (filtered_df df (with_genre sel selected_genre)))
  /\ (selected_genre = None -> fp_df (filtered_df df sel) selected_genre = [])
  /\ (fp_df (filtered_df df sel) selected_genre = []
      <-> forall r, In r (filtered_df df sel) ->
                    eq_text (genre r) selected_genre = true ->
                    subscription_type r = None).
Proof.
  intros Hopt. unfold genre_options in Hopt.
  apply (proj1 (unique_In _ _)) in Hopt.
  apply in_map_iff in Hopt as (r0 & Hg0 & Hr0).
  assert (Hsel : In selected_genre (sel_genre sel)).
  { pose proof Hr0 as Hmask. unfold filtered_df in Hmask.
    apply filter_In in Hmask as [_ Hmask].
    apply mask_satisfies in Hmask as (_ & Hg & _). now rewrite <- Hg0. }
  split; [exact Hsel|]. split; [|split].
  - intros Hpresent. destruct selected_genre as [g|]; [|congruence].
    assert (Heq : filter (fun r => eq_text (genre r) (Some g)) (filtered_df df sel)
                  = filtered_df df (with_genre sel (Some g))).
    { unfold filtered_df. rewrite filter_both. apply filter_ext. intros r.
      unfold mask. simpl. rewrite orb_false_r, eq_text_same_cell.
      destruct (same_cell (genre r) (Some g)) eqn:Hg.
      - apply same_cell_eq in Hg. rewrite Hg.
        apply isin_In in Hsel. rewrite Hsel.
        destruct (isin (region r) (sel_region sel)),
          (isin (subscription_type r) (sel_subscription sel)),
          (isin (month r) (sel_month sel)); reflexivity.
      - destruct (isin (region r) (sel_region sel)),
          (isin (genre r) (sel_genre sel)),
          (isin (subscription_type r) (sel_subscription sel)),
          (isin (month r) (sel_month sel)); reflexivity. }
    split; [exact Heq|]. unfold fp_df. now rewrite Heq.
  - intros ->. unfold fp_df.
    rewrite (filter_none (fun r => eq_text (genre r) None)); [reflexivity|].
    intros r _. apply eq_text_missing.
  - unfold fp_df. rewrite groupby_sum_empty. split.
    + intros Hnone r Hr Hg. apply Hnone. apply filter_In. now split.
    + intros Hnone r Hr. apply filter_In in Hr as [Hr Hg]. now apply Hnone.
Qed.

Lemma fp_df_narrows_witness :
  fp_df (filtered_df Samples.table Samples.only_us) (Some "Pop")
  = [("Premium", 100)].
Proof.
  destruct (fp_df_narrows Samples.table Samples.only_us (Some "Pop"))
    as (_ & Hgenre & _).
  - left. reflexivity.
  - destruct Hgenre as [_ Hfp]; [discriminate|]. rewrite Hfp. reflexivity.
Defined.
End FilterComposition.

(** ** The structure of a grouped sum *)

Section GroupStructure.
Import Pandas Visuals.
Context {A K : Type}.
Variable cmp : K -> K -> comparison.
Variable key : A -> option K.
Variable val : A -> Z.
Hypothesis cmp_order : strict_order cmp.

Lemma cmp_refl (a : K) : cmp a a = Eq.
Proof. now apply cmp_order. Qed.

Lemma cmp_gt_lt (a b : K) : cmp a b = Gt -> cmp b a = Lt.
Proof.
  destruct cmp_order as (_ & Hanti & _). intros H. rewrite (Hanti b a), H.
  reflexivity.
Qed.

Lemma add_to_group_keys (k : K) (v : Z) (groups : list (K * Z)) (k0 : K) :
  In k0 (map fst (add_to_group cmp k v groups))
  <-> k0 = k \/ In k0 (map fst groups).
Proof.
  induction groups as [|[k1 s] rest IH]; simpl.
  - intuition.
  - destruct (cmp k k1) eqn:Hc; simpl.
    + apply cmp_order in Hc. subst k1. intuition.
    + intuition.
    + rewrite IH. intuition.
Qed.

Lemma add_to_group_sorted (k : K) (v : Z) (groups : list (K * Z)) :
  index_sorted cmp groups -> index_sorted cmp (add_to_group cmp k v groups).
Proof.
  unfold index_sorted.
  induction groups as [|[k1 s] rest IH]; intros Hs; simpl.
  - repeat constructor.
  - apply StronglySorted_inv in Hs as [Hrest Hall].
    destruct (cmp k k1) eqn:Hc.
    + constructor; [exact Hrest | exact Hall].
    + constructor; [constructor; assumption|].
      constructor; [exact Hc|].
      destruct cmp_order as (_ & _ & Htrans).
      eapply Forall_impl; [|exact Hall]. intros [k2 s2] H12. simpl in *.
      now apply Htrans with k1.
    + constructor; [now apply IH|].
      apply Forall_forall. intros [k2 s2] Hin. simpl.
      assert (Hk : In k2 (map fst (add_to_group cmp k v rest))).
      { apply in_map_iff. now exists (k2, s2). }
      apply add_to_group_keys in Hk as [->|Hk].
      * now apply cmp_gt_lt.
      * apply in_map_iff in Hk as ([k3 s3] & Hk3 & Hin3). simpl in Hk3. subst k3.
        rewrite Forall_forall in Hall. exact (Hall _ Hin3).
Qed.

Lemma series_get_above (k : K) (groups : list (K * Z)) :
  Forall (fun e => cmp k (fst e) = Lt) groups -> series_get cmp k groups = None.
Proof.
  induction 1 as [|[k1 s] rest Hlt _ IH]; simpl; [reflexivity|].
  simpl in Hlt. now rewrite Hlt.
Qed.

Lemma series_get_add (k : K) (v : Z) (groups : list (K * Z)) (k0 : K) :
  index_sorted cmp groups ->
  series_get cmp k0 (add_to_group cmp k v groups)
  = if same_key cmp Some k0 k
    then group_value (series_get cmp k groups) [v]
    else series_get cmp k0 groups.
Proof.
  unfold index_sorted, same_key, group_value.
  induction groups as [|[k1 s] rest IH]; intros Hs; simpl.
  - destruct cmp_order as (Heq & Hanti & _).
    rewrite (Hanti k0 k). now destruct (cmp k k0).
  - apply StronglySorted_inv in Hs as [Hrest Hall].
    destruct cmp_order as (Heq & Hanti & Htrans).
    destruct (cmp k k1) eqn:Hc; simpl.
    + apply Heq in Hc. subst k1.
      rewrite (Hanti k k0). destruct (cmp k0 k) eqn:Hc0; reflexivity.
    + rewrite (Hanti k k0). destruct (cmp k0 k) eqn:Hc0; simpl; try reflexivity.
      rewrite series_get_above; [reflexivity|].
      eapply Forall_impl; [|exact Hall]. intros [k2 s2] H12. simpl in *.
      now apply Htrans with k1.
    + rewrite (IH Hrest).
      destruct (cmp k k0) eqn:Hkk; [|reflexivity|reflexivity].
      apply Heq in Hkk. subst k0. now rewrite Hc.
Qed.

Lemma fold_groups_sorted (l : list A) (groups : list (K * Z)) :
  index_sorted cmp groups ->
  index_sorted cmp (fold_left (add_row cmp key val) l groups).
Proof.
  revert groups. induction l as [|r l IH]; intros groups Hs; simpl.
  - exact Hs.
  - apply IH. unfold add_row. destruct (key r); [|exact Hs].
    now apply add_to_group_sorted.
Qed.

Lemma fold_groups_keys (l : list A) (groups : list (K * Z)) (k0 : K) :
  In k0 (map fst (fold_left (add_row cmp key val) l groups))
  <-> In (Some k0) (map key l) \/ In k0 (map fst groups).
Proof.
  revert groups. induction l as [|r l IH]; intros groups; simpl.
  - intuition.
  - rewrite IH. unfold add_row. destruct (key r) as [k|].
    + rewrite add_to_group_keys. intuition congruence.
    + intuition congruence.
Qed.

Lemma fold_groups_get (l : list A) (groups : list (K * Z)) (k0 : K) :
  index_sorted cmp groups ->
  series_get cmp k0 (fold_left (add_row cmp key val) l groups)
  = group_value (series_get cmp k0 groups)
      (map val (filter (same_key cmp key k0) l)).
Proof.
  revert groups. induction l as [|r l IH]; intros groups Hs; simpl.
  - reflexivity.
  - assert (Hrow : add_row cmp key val groups r
                   = match key r with
                     | Some k => add_to_group cmp k (val r) groups
                     | None => groups
                     end) by reflexivity.
    assert (Hsame : same_key cmp key k0 r
                    = match key r with
                      | Some k => same_key cmp Some k0 k
                      | None => false
                      end) by (unfold same_key; now destruct (key r)).
    rewrite Hrow, Hsame. destruct (key r) as [k|]; [|now apply IH].
    rewrite IH by now apply add_to_group_sorted.
    rewrite series_get_add by exact Hs.
    unfold same_key. destruct cmp_order as (Heq & _ & _).
    destruct (cmp k k0) eqn:Hc; simpl; try reflexivity.
    apply Heq in Hc. now rewrite Hc.
Qed.

Lemma series_get_In (s : list (K * Z)) (k : K) (v : Z) :
  index_sorted cmp s -> (In (k, v) s <-> series_get cmp k s = Some v).
Proof.
  unfold index_sorted. induction s as [|[k1 v1] rest IH]; intros Hs; simpl.
  - split; [tauto | discriminate].
  - apply StronglySorted_inv in Hs as [Hrest Hall].
    destruct cmp_order as (Heq & Hanti & _).
    destruct (cmp k k1) eqn:Hc.
    + apply Heq in Hc. subst k1. split.
      * intros [Hhd|Htl]; [congruence|].
        rewrite Forall_forall in Hall. specialize (Hall _ Htl). simpl in Hall.
        rewrite cmp_refl in Hall. discriminate.
      * intros Hv. left. congruence.
    + rewrite <- (IH Hrest). split; [|tauto].
      intros [Hhd|Htl]; [|exact Htl].
      injection Hhd as Hk _. rewrite Hk, cmp_refl in Hc. discriminate.
    + rewrite <- (IH Hrest). split; [|tauto].
      intros [Hhd|Htl]; [|exact Htl].
      injection Hhd as Hk _. rewrite Hk, cmp_refl in Hc. discriminate.
Qed.

Lemma index_sorted_NoDup (s : list (K * Z)) :
  index_sorted cmp s -> NoDup (map fst s).
Proof.
  unfold index_sorted. induction 1 as [|[k v] rest Hrest IH Hall]; simpl.
  - constructor.
  - constructor; [|exact IH]. intros Hin.
    apply in_map_iff in Hin as ([k2 v2] & Hk & Hin2). simpl in Hk. subst k2.
    rewrite Forall_forall in Hall. specialize (Hall _ Hin2). simpl in Hall.
    rewrite cmp_refl in Hall. discriminate.
Qed.
End GroupStructure.

(** ** Grouped sums by name *)

Section GroupsByName.
Import Pandas Visuals.

Lemma string_compare_order : strict_order String.compare.
Proof.
  assert (Hrefl : forall a, String.compare a a = Eq).
  { intros a. pose proof (String.compare_antisym a a) as H.
    destruct (String.compare a a); simpl in H; congruence. }
  split; [|split].
  - intros a b. split.
    + apply String.compare_eq_iff.
    + intros ->. apply Hrefl.
  - apply String.compare_antisym.
  - intros a b c Hab Hbc.
    apply OrderedTypeEx.String_as_OT.cmp_lt.
    apply OrderedTypeEx.String_as_OT.lt_trans with b;
      now apply OrderedTypeEx.String_as_OT.cmp_lt.
Qed.

Lemma pair_compare_order : strict_order App.pair_compare.
Proof.
  destruct string_compare_order as (Heq & Hanti & Htrans).
  unfold App.pair_compare. split; [|split].
  - intros [a1 a2] [b1 b2]. simpl. split.
    + destruct (String.compare a1 b1) eqn:H1; try discriminate.
      intros H2. apply Heq in H1, H2. congruence.
    + intros [= -> ->]. now rewrite !(proj2 (Heq _ _) eq_refl).
  - intros [a1 a2] [b1 b2]. simpl. rewrite (Hanti a1 b1).
    destruct (String.compare b1 a1); simpl; auto.
  - intros [a1 a2] [b1 b2] [c1 c2]. simpl.
    destruct (String.compare a1 b1) eqn:H1; try discriminate;
      destruct (String.compare b1 c1) eqn:H2; try discriminate;
      intros Ha Hb.
    + apply Heq in H1, H2. subst. rewrite (proj2 (Heq c1 c1) eq_refl).
      now apply Htrans with b2.
    + apply Heq in H1. subst. now rewrite H2.
    + apply Heq in H2. subst. now rewrite H1.
    + now rewrite (Htrans _ _ _ H1 H2).
Qed.

Lemma same_key_eqb {A : Type} (key : A -> text) (k : string) (r : A) :
  same_key String.compare key k r = eq_text (key r) (Some k).
Proof.
  unfold same_key, eq_text. destruct (key r) as [k'|]; [|reflexivity].
  destruct (String.compare k' k) eqn:Hc.
  - apply string_compare_order in Hc. symmetry. now apply String.eqb_eq.
  - symmetry. apply String.eqb_neq. intros Heq.
    apply string_compare_order in Heq. congruence.
  - symmetry. apply String.eqb_neq. intros Heq.
    apply string_compare_order in Heq. congruence.
Qed.

Lemma wrap64_in_int64 (z : Z) : in_int64 z -> wrap64 z = z.
Proof.
  unfold in_int64, wrap64. intros Hz.
  rewrite Z.mod_small; lia.
Qed.

Lemma group_value_opened {A : Type} (val : A -> Z) (rows : list A) (s : Z) :
  group_value (Some s) (map val rows)
  = Some (fold_left (fun acc r => add64 acc (val r)) rows s).
Proof.
  unfold group_value. revert s. induction rows as [|r rows IH]; intros s; simpl.
  - reflexivity.
  - apply IH.
Qed.

Lemma group_value_col_sum {A : Type} (val : A -> Z) (rows : list A) :
  (forall r, In r rows -> in_int64 (val r)) ->
  group_value None (map val rows)
  = match rows with
    | [] => None
    | _ :: _ => Some (col_sum val rows)
    end.
Proof.
  destruct rows as [|r rows]; intros Hrange; [reflexivity|].
  unfold col_sum. simpl. unfold add64 at 2. simpl.
  rewrite (wrap64_in_int64 (val r)) by (apply Hrange; now left).
  apply (group_value_opened val rows (val r)).
Qed.

Lemma groups_by_name_sorted {A : Type} (key : A -> text) (val : A -> Z)
  (df : list A) :
  index_sorted String.compare (groupby_sum String.compare key val df).
Proof.
  apply fold_groups_sorted; [apply string_compare_order | constructor].
Qed.

Lemma groups_by_name_keys {A : Type} (key : A -> text) (val : A -> Z)
  (df : list A) (k : string) :
  In k (map fst (groupby_sum String.compare key val df))
  <-> In (Some k) (map key df).
Proof.
  unfold groupby_sum.
  rewrite fold_groups_keys by apply string_compare_order. simpl. tauto.
Qed.

Lemma groups_by_name_values {A : Type} (key : A -> text) (val : A -> Z)
  (df : list A) (k : string) (v : Z) :
  (forall r, In r df -> in_int64 (val r)) ->
  (In (k, v) (groupby_sum String.compare key val df)
   <-> rows_of key k df <> [] /\ v = col_sum val (rows_of key k df)).
Proof.
  intros Hrange.
  rewrite (series_get_In String.compare string_compare_order)
    by apply groups_by_name_sorted.
  unfold groupby_sum.
  rewrite fold_groups_get by (apply string_compare_order || constructor).
  simpl.
  rewrite (filter_ext _ _ (same_key_eqb key k)).
  fold (rows_of key k df).
  rewrite group_value_col_sum.
  - destruct (rows_of key k df) as [|r rows].
    + split; [discriminate | intros [Hne _]; congruence].
    + split.
      * intros [= <-]. split; [discriminate | reflexivity].
      * intros [_ ->]. reflexivity.
  - intros r Hr. apply Hrange. unfold rows_of in Hr.
    now apply filter_In in Hr.
Qed.

(** X5. A grouped sum has one entry per distinct key present in the table,
    and no other: its labels are the keys of the rows that have one - a row
    whose key cell is empty gives no label - each once, in increasing
    order; this holds for a single text column and for a pair of columns. *)
Theorem groupby_sum_index {A : Type}
  (key : A -> text) (key2 : A -> option (string * string)) (val : A -> Z)
  (df : list A) :
  (index_sorted String.compare (groupby_sum String.compare key val df)
   /\ NoDup (map fst (groupby_sum String.compare key val df))
   /\ forall k, In k (map fst (groupby_sum String.compare key val df))
                <-> In (Some k) (map key df))
  /\ (index_sorted App.pair_compare (groupby_sum App.pair_compare key2 val df)
      /\ NoDup (map fst (groupby_sum App.pair_compare key2 val df))
      /\ forall k, In k (map fst (groupby_sum App.pair_compare key2 val df))
                   <-> In (Some k) (map key2 df)).
Proof.
  split.
  - split; [apply groups_by_name_sorted|]. split.
    + eapply index_sorted_NoDup;
        [apply string_compare_order | apply groups_by_name_sorted].
    + intros k. apply groups_by_name_keys.
  - assert (Hs : index_sorted App.pair_compare
                   (groupby_sum App.pair_compare key2 val df)).
    { apply fold_groups_sorted; [apply pair_compare_order | constructor]. }
    split; [exact Hs|]. split.
    + eapply index_sorted_NoDup; [apply pair_compare_order | exact Hs].
    + intros k. unfold groupby_sum.
      rewrite fold_groups_keys by apply pair_compare_order. simpl. tauto.
Qed.

(** X6. On an [int64] column, the entry of a grouped sum under a label is
    the column sum of the rows whose key cell holds the label, and only
    labels held by at least one row have an entry. *)
Theorem groupby_sum_values {A : Type}
  (key : A -> text) (val : A -> Z) (df : list A) (k : string) (v : Z) :
  (forall r, In r df -> in_int64 (val r)) ->
  (In (k, v) (groupby_sum String.compare key val df)
   <-> rows_of key k df <> [] /\ v = col_sum val (rows_of key k df)).
Proof.
  apply groups_by_name_values.
Qed.

Lemma groupby_sum_values_witness :
  In ("Aria", 170)
    (groupby_sum String.compare artist_name streams Samples.table).
Proof.
  apply (groupby_sum_values artist_name streams Samples.table "Aria" 170).
  - intros r Hr. simpl in Hr.
    destruct Hr as [<-|[<-|[<-|[]]]]; unfold in_int64; simpl; lia.
  - split; [discriminate | reflexivity].
Defined.
End GroupsByName.

(** ** The top artist *)

Section TopArtist.
Import Pandas App Visuals.

Lemma argmax_from_first {K : Type} (rest : list (K * Z)) (best : K) (best_v : Z) :
  exists pre v post,
    (best, best_v) :: rest = (pre ++ (argmax_from best best_v rest, v) :: post)%list
    /\ Forall (fun e => snd e < v) pre
    /\ Forall (fun e => snd e <= v) post.
Proof.
  revert best best_v. induction rest as [|[k1 v1] rest IH]; intros best best_v.
  - exists [], best_v, []. simpl. repeat split; constructor.
  - simpl. destruct (best_v <? v1) eqn:Hlt.
    + apply Z.ltb_lt in Hlt.
      destruct (IH k1 v1) as (pre & v & post & Heq & Hpre & Hpost).
      exists ((best, best_v) :: pre), v, post. simpl.
      split; [f_equal; exact Heq|]. split; [|exact Hpost].
      constructor; [|exact Hpre]. simpl.
      assert (Hv1 : v1 <= v).
      { destruct pre as [|p pre]; simpl in Heq.
        - injection Heq as _ Hv _. lia.
        - injection Heq as Hp _. apply Forall_inv in Hpre. subst p.
          simpl in Hpre. lia. }
      lia.
    + apply Z.ltb_ge in Hlt.
      destruct (IH best best_v) as (pre & v & post & Heq & Hpre & Hpost).
      destruct pre as [|p pre]; simpl in Heq.
      * injection Heq as Hk Hv Hrest. subst v post.
        exists [], best_v, ((k1, v1) :: rest). simpl. rewrite <- Hk.
        split; [reflexivity|]. split; constructor; simpl; auto.
      * injection Heq as Hp Hrest. subst p.
        apply Forall_inv in Hpre as Hbv. apply Forall_inv_tail in Hpre.
        simpl in Hbv.
        exists ((best, best_v) :: (k1, v1) :: pre), v, post. simpl.
        split; [do 2 f_equal; exact Hrest|]. split; [|exact Hpost].
        repeat constructor; simpl; try lia. exact Hpre.
Qed.

Lemma sorted_after {K : Type} (R : K * Z -> K * Z -> Prop)
  (pre post : list (K * Z)) (x : K * Z) :
  StronglySorted R (pre ++ x :: post) -> Forall (R x) post.
Proof.
  induction pre as [|p pre IH]; simpl; intros Hs.
  - now apply StronglySorted_inv in Hs.
  - apply StronglySorted_inv in Hs as [Hs _]. now apply IH.
Qed.

Lemma top_artist_with_rows (fdf : Table) :
  fdf <> [] ->
  top_artist fdf = idxmax (groupby_sum String.compare artist_name streams fdf).
Proof.
  destruct fdf; [congruence | reflexivity].
Qed.

(** A grouped sum has an entry as soon as one row has a key. *)
Lemma groupby_sum_inhabited {A : Type} (key : A -> text) (val : A -> Z)
  (df : list A) :
  (exists r, In r df /\ key r <> None) ->
  groupby_sum String.compare key val df <> [].
Proof.
  intros (r & Hr & Hk) Hnil.
  pose proof (proj1 (groupby_sum_empty String.compare key val df) Hnil) as Hall.
  now apply Hk, Hall.
Qed.

Lemma keys_decide {A : Type} (key : A -> text) (df : list A) :
  (forall r, In r df -> key r = None) \/ (exists r, In r df /\ key r <> None).
Proof.
  induction df as [|r df [IH|(x & Hx & Hk)]].
  - left. intros r [].
  - destruct (key r) as [k|] eqn:Hk.
    + right. exists r. split; [now left | congruence].
    + left. intros x [<-|Hx]; [exact Hk | now apply IH].
  - right. exists x. split; [now right | exact Hk].
Qed.

(** X7. On a table in which some row names an artist (with [int64] stream
    counts) the top-artist tile of app.py names an artist of the table whose
    streams total is the largest; among artists with the same total it names
    the first in alphabetical order.  On a table that has rows but no
    artist name at all, the guard lets the query through and it raises
    [ValueError]. *)
Theorem top_artist_is_maximal (fdf : Table) :
  (fdf <> [] ->
   (forall r, In r fdf -> artist_name r = None) ->
   top_artist fdf = Raise ValueError)
  /\ ((exists r, In r fdf /\ artist_name r <> None) ->
      (forall r, In r fdf -> in_int64 (streams r)) ->
      exists a,
        top_artist fdf = Ok a
        /\ In (Some a) (map artist_name fdf)
        /\ forall b, In (Some b) (map artist_name fdf) ->
             col_sum streams (rows_of artist_name b fdf)
             <= col_sum streams (rows_of artist_name a fdf)
             /\ (col_sum streams (rows_of artist_name b fdf)
                 = col_sum streams (rows_of artist_name a fdf) ->
                 String.compare a b <> Gt)).
Proof.
  split.
  { intros Hne Hnone. rewrite (top_artist_with_rows fdf Hne).
    rewrite (proj2 (groupby_sum_empty String.compare artist_name streams fdf)
               Hnone).
    reflexivity. }
  intros Hsome Hrange.
  assert (Hne : fdf <> []).
  { destruct Hsome as (r & Hr & _). destruct fdf; [destruct Hr | discriminate]. }
  pose proof (groups_by_name_sorted artist_name streams fdf) as Hsorted.
  pose proof (groups_by_name_keys artist_name streams fdf) as Hkeys.
  pose proof (fun k v => groups_by_name_values artist_name streams fdf k v Hrange)
    as Hvalues.
  rewrite (top_artist_with_rows fdf Hne).
  destruct (groupby_sum String.compare artist_name streams fdf)
    as [|[k1 v1] rest] eqn:Hgroups.
  { exfalso. eapply groupby_sum_inhabited; eassumption. }
  unfold idxmax.
  destruct (argmax_from_first rest k1 v1) as (pre & v & post & Heq & Hpre & Hpost).
  remember (argmax_from k1 v1 rest) as a eqn:Hargmax. clear Hargmax.
  rewrite Heq in Hsorted, Hkeys, Hvalues.
  assert (Ha : In (a, v) (pre ++ (a, v) :: post)) by (apply in_elt).
  exists a. split; [reflexivity|]. split.
  { apply Hkeys. apply in_map_iff. now exists (a, v). }
  intros b Hb. apply Hkeys in Hb. apply in_map_iff in Hb as ([b' vb] & Hb' & Hin).
  simpl in Hb'. subst b'.
  apply Hvalues in Ha as [_ Hva]. apply Hvalues in Hin as Hvb.
  destruct Hvb as [_ Hvb]. rewrite <- Hva, <- Hvb.
  apply in_app_or in Hin as [Hin|[Hin|Hin]].
  - rewrite Forall_forall in Hpre. specialize (Hpre _ Hin). simpl in Hpre.
    split; lia.
  - injection Hin as Hab Hvv. subst b vb. split; [lia|]. intros _.
    rewrite (proj2 (proj1 string_compare_order a a) eq_refl). discriminate.
  - rewrite Forall_forall in Hpost. pose proof (Hpost _ Hin) as Hle.
    simpl in Hle. split; [exact Hle|]. intros _.
    apply sorted_after in Hsorted. rewrite Forall_forall in Hsorted.
    specialize (Hsorted _ Hin). simpl in Hsorted. congruence.
Qed.

Lemma top_artist_is_maximal_witness :
  (exists a, top_artist Samples.table = Ok a
             /\ In (Some a) (map artist_name Samples.table))
  /\ top_artist (filtered_df Samples.table_with_gap
                   (mkSelection [None] [Some "Pop"] [Some "Free"] [Some "2024-01"]))
     = Raise ValueError.
Proof.
  destruct (top_artist_is_maximal Samples.table) as (_ & Hmax).
  destruct (top_artist_is_maximal
              (filtered_df Samples.table_with_gap
                 (mkSelection [None] [Some "Pop"] [Some "Free"] [Some "2024-01"])))
    as (Hraise & _).
  split.
  - destruct Hmax as (a & Ha & Hin & _).
    + exists (Samples.row "US" "Pop" "Premium" "2024-01" "Aria" "United States" 100 10).
      split; [now left | discriminate].
    + intros r Hr. simpl in Hr.
      destruct Hr as [<-|[<-|[<-|[]]]]; unfold in_int64; simpl; lia.
    + exists a. split; assumption.
  - apply Hraise.
    + discriminate.
    + intros r Hr. simpl in Hr. destruct Hr as [<-|[]]. reflexivity.
Defined.
End TopArtist.

(** ** The top-N charts *)

Section TopCharts.
Import Pandas Visuals.

Lemma sorted_app_inv {T : Type} (R : T -> T -> Prop) (l1 l2 : list T) :
  StronglySorted R (l1 ++ l2) ->
  StronglySorted R l1 /\ StronglySorted R l2
  /\ forall x y, In x l1 -> In y l2 -> R x y.
Proof.
  induction l1 as [|a l1 IH]; simpl; intros Hs.
  - repeat split; [constructor | exact Hs | intros x y []].
  - apply StronglySorted_inv in Hs as [Hs Hall].
    destruct (IH Hs) as (H1 & H2 & Hcross).
    rewrite Forall_forall in Hall. repeat split.
    + constructor; [exact H1|]. apply Forall_forall. intros x Hx.
      apply Hall. apply in_or_app. now left.
    + exact H2.
    + intros x y [<-|Hx] Hy.
      * apply Hall. apply in_or_app. now right.
      * now apply Hcross.
Qed.

Lemma insert_desc_perm {K : Type} (x : K * Z) (s : list (K * Z)) :
  Permutation (insert_desc x s) (x :: s).
Proof.
  induction s as [|y s IH]; simpl; [reflexivity|].
  destruct (snd y <? snd x); [reflexivity|].
  rewrite IH. apply perm_swap.
Qed.

Lemma insert_desc_sorted {K : Type} (x : K * Z) (s : list (K * Z)) :
  StronglySorted (fun a b => snd b <= snd a) s ->
  StronglySorted (fun a b => snd b <= snd a) (insert_desc x s).
Proof.
  induction s as [|y s IH]; simpl; intros Hs.
  - repeat constructor.
  - apply StronglySorted_inv in Hs as [Hs Hall].
    destruct (snd y <? snd x) eqn:Hlt.
    + apply Z.ltb_lt in Hlt. constructor; [now constructor|].
      constructor; [lia|]. eapply Forall_impl; [|exact Hall].
      intros b Hb. simpl in Hb. lia.
    + apply Z.ltb_ge in Hlt. constructor; [now apply IH|].
      apply Forall_forall. intros b Hb.
      apply (Permutation_in _ (insert_desc_perm x s)) in Hb as [<-|Hb].
      * exact Hlt.
      * rewrite Forall_forall in Hall. now apply Hall.
Qed.

Lemma sort_desc_sorts {K : Type} : sorts_descending (@sort_desc K).
Proof.
  intros s. unfold sort_desc. induction s as [|x s [IHp IHs]]; simpl.
  - split; constructor.
  - split.
    + rewrite insert_desc_perm. now constructor.
    + now apply insert_desc_sorted.
Qed.

(** X8. Whatever order the sort leaves among equal totals, the artist chart
    with limit [n] shows [min n (number of artists)] bars in decreasing
    order, the bars shown and the artists left out make up the whole grouped
    sum, and no artist left out has more streams than one shown.  The chart
    of app.py is the one with limit 10, the drill-down the one with limit 5
    on the rows of the chosen country. *)
Theorem v1_top_artists
  (sort_values : list (string * Z) -> list (string * Z))
  (artist_limit : nat) (df : Table) (selected_country : text) :
  sorts_descending sort_values ->
  (List.length (v1 sort_values artist_limit df)
   = Nat.min artist_limit
       (List.length (groupby_sum String.compare artist_name streams df))
   /\ StronglySorted (fun a b => snd b <= snd a) (v1 sort_values artist_limit df)
   /\ exists hidden,
        Permutation (v1 sort_values artist_limit df ++ hidden)
          (groupby_sum String.compare artist_name streams df)
        /\ forall shown h,
             In shown (v1 sort_values artist_limit df) -> In h hidden ->
             snd h <= snd shown)
  /\ artist_df sort_values df = v1 sort_values 10 df
  /\ drill_df sort_values df selected_country
     = v1 sort_values 5
         (filter (fun r => eq_text (country r) selected_country) df).
Proof.
  intros Hsort. split; [|split; reflexivity].
  unfold v1, head.
  set (groups := groupby_sum String.compare artist_name streams df).
  destruct (Hsort groups) as [Hperm Hsorted].
  rewrite <- (firstn_skipn artist_limit (sort_values groups)) in Hsorted, Hperm.
  apply sorted_app_inv in Hsorted as (Hshown & _ & Hcross).
  split; [|split].
  - rewrite length_firstn. f_equal.
    rewrite <- (firstn_skipn artist_limit (sort_values groups)).
    now apply Permutation_length.
  - exact Hshown.
  - exists (skipn artist_limit (sort_values groups)). split; [exact Hperm|].
    intros shown h Hs Hh. now apply Hcross.
Qed.

Lemma v1_top_artists_witness :
  v1 sort_desc 1 Samples.table = [("Aria", 170)]
  /\ List.length (v1 sort_desc 1 Samples.table) = 1%nat.
Proof.
  split; [reflexivity|].
  destruct (v1_top_artists sort_desc 1 Samples.table (Some "Germany")
              sort_desc_sorts)
    as ((Hlen & _) & _).
  rewrite Hlen. reflexivity.
Defined.
End TopCharts.

(** ** The premium-share tile *)

Section PremiumShare.
Import Pandas App Visuals.

Lemma zsum_filter_bounds {A : Type} (val : A -> Z) (f : A -> bool) (l : list A) :
  (forall r, In r l -> 0 <= val r) ->
  0 <= zsum (map val (filter f l)) <= zsum (map val l).
Proof.
  induction l as [|r l IH]; intros Hpos; simpl; [lia|].
  assert (Hr : 0 <= val r) by (apply Hpos; now left).
  assert (Hl : forall x, In x l -> 0 <= val x) by (intros x Hx; apply Hpos; now right).
  specialize (IH Hl). destruct (f r); simpl; lia.
Qed.

Lemma ratio_percentage (p t : Z) :
  0 <= p <= t -> 0 < t ->
  (0 <= inject_Z p / inject_Z t * 100 /\ inject_Z p / inject_Z t * 100 <= 100)%Q.
Proof.
  intros Hp Ht.
  assert (Htq : (0 < inject_Z t)%Q) by (unfold Qlt; simpl; lia).
  assert (Hpq : (0 <= inject_Z p)%Q) by (unfold Qle; simpl; lia).
  assert (Hle : (inject_Z p <= inject_Z t)%Q) by (unfold Qle; simpl; lia).
  assert (Hratio0 : (0 <= inject_Z p / inject_Z t)%Q).
  { apply Qle_shift_div_l; [exact Htq|]. now rewrite Qmult_0_l. }
  assert (Hratio1 : (inject_Z p / inject_Z t <= 1)%Q).
  { apply Qle_shift_div_r; [exact Htq|]. now rewrite Qmult_1_l. }
  split.
  - apply Qmult_le_0_compat; [exact Hratio0 | discriminate].
  - setoid_replace (100 : Q) with (1 * 100)%Q at 2 by reflexivity.
    apply Qmult_le_compat_r; [exact Hratio1 | discriminate].
Qed.

(** X9. When the listener counts are non-negative and their total fits an
    [int64], the premium share of app.py is a percentage: a finite number
    between 0 and 100. *)
Theorem premium_share_percentage (fdf : Table) :
  (forall r, In r fdf -> 0 <= active_listeners r) ->
  zsum (map active_listeners fdf) < 2 ^ 63 ->
  exists q, premium_share fdf = Fin q /\ (0 <= q)%Q /\ (q <= 100)%Q.
Proof.
  intros Hpos Hfit. unfold premium_share, active_users.
  rewrite !col_sum_zsum.
  pose proof (zsum_filter_bounds active_listeners
                (fun r => eq_text (subscription_type r) (Some "Premium")) fdf Hpos)
    as Hprem.
  set (p := zsum (map active_listeners
                    (filter (fun r => eq_text (subscription_type r) (Some "Premium"))
                       fdf)))
    in *.
  set (t := zsum (map active_listeners fdf)) in *.
  rewrite (wrap64_in_int64 p) by (unfold in_int64; lia).
  rewrite (wrap64_in_int64 t) by (unfold in_int64; lia).
  destruct (0 <? t) eqn:Ht.
  - apply Z.ltb_lt in Ht. unfold truediv.
    replace (t =? 0) with false by (symmetry; apply Z.eqb_neq; lia).
    simpl. eexists. split; [reflexivity|].
    apply ratio_percentage; lia.
  - exists 0%Q. split; [reflexivity|]. split; discriminate.
Qed.

Lemma premium_share_percentage_witness :
  exists q, premium_share Samples.table = Fin q /\ (0 <= q)%Q /\ (q <= 100)%Q.
Proof.
  apply premium_share_percentage.
  - intros r Hr. simpl in Hr.
    destruct Hr as [<-|[<-|[<-|[]]]]; simpl; lia.
  - reflexivity.
Defined.

(** X10. The premium-share tile of the later revisions shows a number
    exactly when the listener total is not zero; when the total is positive
    it shows the value of app.py rounded to one decimal. *)
Theorem premium_share_metric_defined (df : Table) :
  (is_finite (Dashboard.premium_share_metric df) = true
   <-> col_sum active_listeners df <> 0)
  /\ (0 < col_sum active_listeners df ->
      Dashboard.premium_share_metric df = round1 (premium_share df)).
Proof.
  unfold Dashboard.premium_share_metric, premium_share, active_users, truediv.
  split.
  - destruct (col_sum active_listeners df =? 0) eqn:Hz.
    + apply Z.eqb_eq in Hz. rewrite Hz. split; [|congruence].
      destruct (_ =? 0); [discriminate|]. destruct (0 <? _); discriminate.
    + apply Z.eqb_neq in Hz. split; [auto | reflexivity].
  - intros Hpos. apply Z.ltb_lt in Hpos as Hb. rewrite Hb.
    replace (col_sum active_listeners df =? 0) with false
      by (symmetry; apply Z.eqb_neq; lia).
    reflexivity.
Qed.

Lemma premium_share_metric_defined_witness :
  Dashboard.premium_share_metric Samples.table = round1 (premium_share Samples.table).
Proof.
  apply premium_share_metric_defined. reflexivity.
Defined.

(** X11. The KPI row of the later revisions completes exactly when some row
    of the filtered table names an artist; when none does - the table is
    empty, or every artist cell is - its top-artist tile raises
    [ValueError]. *)
Theorem kpi_row_needs_artist (df : Table) :
  (Dashboard.kpi_row df = Raise ValueError
   <-> forall r, In r df -> artist_name r = None)
  /\ (returns (Dashboard.kpi_row df)
      <-> exists r, In r df /\ artist_name r <> None).
Proof.
  unfold Dashboard.kpi_row, Dashboard.top_artist_metric, returns.
  pose proof (groupby_sum_empty String.compare artist_name streams df) as Hempty.
  destruct (groupby_sum String.compare artist_name streams df)
    as [|[k v] rest] eqn:Hgroups.
  - assert (Hnone : forall r, In r df -> artist_name r = None)
      by (apply (proj1 Hempty); reflexivity).
    simpl. split; split.
    + intros _. exact Hnone.
    + reflexivity.
    + intros [a Ha]. discriminate.
    + intros (r & Hr & Hk). exfalso. now apply Hk, Hnone.
  - assert (Hsome : exists r, In r df /\ artist_name r <> None).
    { destruct (keys_decide artist_name df) as [Hnone|Hsome]; [|exact Hsome].
      pose proof (proj2 Hempty Hnone) as Hnil. discriminate. }
    simpl. split; split.
    + discriminate.
    + intros Hnone. destruct Hsome as (r & Hr & Hk). exfalso.
      now apply Hk, Hnone.
    + intros _. exact Hsome.
    + intros _. eexists. reflexivity.
Qed.
End PremiumShare.

(** ** Quantiles and market signals *)

Section Quantiles.
Import Pandas Dashboard.

Lemma insert_sorted_In (x y : Z) (l : list Z) :
  In y (insert_sorted x l) <-> y = x \/ In y l.
Proof.
  induction l as [|z l IH]; simpl.
  - intuition.
  - destruct (x <=? z); simpl; [intuition|]. rewrite IH. intuition.
Qed.

Lemma sort_values_In (y : Z) (l : list Z) : In y (sort_values l) <-> In y l.
Proof.
  unfold sort_values. induction l as [|x l IH]; simpl; [tauto|].
  rewrite insert_sorted_In, IH. intuition.
Qed.

Lemma convex_between (a b f lo hi : Q) :
  (0 <= f)%Q -> (f <= 1)%Q ->
  (lo <= a)%Q -> (a <= hi)%Q -> (lo <= b)%Q -> (b <= hi)%Q ->
  (lo <= a + (b - a) * f)%Q /\ (a + (b - a) * f <= hi)%Q.
Proof.
  intros Hf0 Hf1 Hla Hah Hlb Hbh. split; nra.
Qed.

(** The interpolation behind a quantile: a point on the segment between
    two of the values. *)
Lemma quantile_interpolates (values : list Z) (q : Q) :
  values <> [] ->
  (0 <= q)%Q -> (q <= 1)%Q ->
  exists a b f,
    quantile values q = Fin (inject_Z a + (inject_Z b - inject_Z a) * f)
    /\ In a values /\ In b values /\ (0 <= f)%Q /\ (f <= 1)%Q.
Proof.
  intros Hne Hq0 Hq1. unfold quantile.
  destruct (sort_values values) as [|first rest] eqn:Hsorted.
  { destruct values as [|x values]; [congruence|].
    assert (Hx : In x (sort_values (x :: values)))
      by (apply sort_values_In; now left).
    rewrite Hsorted in Hx. destruct Hx. }
  assert (Hmem : forall y, In y (first :: rest) -> In y values).
  { intros y Hy. apply sort_values_In. now rewrite Hsorted. }
  set (sorted := first :: rest) in *.
  set (n := Z.of_nat (List.length sorted)).
  assert (Hn : 1 <= n) by (unfold n, sorted; simpl; lia).
  set (h := ((inject_Z n - 1) * q)%Q).
  assert (Hn1 : (0 <= inject_Z n - 1)%Q).
  { assert (H1 : (inject_Z 1 <= inject_Z n)%Q) by (unfold Qle; simpl; lia).
    change (inject_Z 1) with 1%Q in H1. lra. }
  assert (Hh0 : (0 <= h)%Q) by (unfold h; nra).
  assert (Hh1 : (h <= inject_Z (n - 1))%Q).
  { unfold h. replace (n - 1) with (n + - (1)) by ring.
    rewrite inject_Z_plus, inject_Z_opp. change (inject_Z 1) with 1%Q. nra. }
  assert (Hlo0 : 0 <= Qfloor h).
  { change 0 with (Qfloor (inject_Z 0)). apply Qfloor_resp_le. exact Hh0. }
  assert (Hlo1 : Qfloor h <= n - 1).
  { rewrite <- (Qfloor_Z (n - 1)). apply Qfloor_resp_le. exact Hh1. }
  pose proof (Qfloor_le h) as Hfl.
  pose proof (Qlt_floor h) as Hfu. rewrite inject_Z_plus in Hfu.
  change (inject_Z 1) with 1%Q in Hfu.
  set (a := nth (Z.to_nat (Qfloor h)) sorted first).
  assert (Ha : In a sorted).
  { apply nth_In. unfold n in Hlo1. lia. }
  set (b := nth (Z.to_nat (Qfloor h + 1)) sorted a).
  assert (Hb : In b sorted).
  { unfold b.
    destruct (Nat.lt_ge_cases (Z.to_nat (Qfloor h + 1)) (List.length sorted))
      as [Hlt|Hge].
    - now apply nth_In.
    - now rewrite nth_overflow. }
  exists a, b, (h - inject_Z (Qfloor h))%Q.
  split; [reflexivity|].
  split; [now apply Hmem|]. split; [now apply Hmem|]. split; lra.
Qed.

Lemma classify_labels (map_genre : string) (q75 q40 x : float) :
  classify map_genre q75 q40 x = "High " ++ map_genre ++ " adoption market"
  \/ classify map_genre q75 q40 x = "Moderate " ++ map_genre ++ " adoption market"
  \/ classify map_genre q75 q40 x = "Low " ++ map_genre ++ " adoption market".
Proof.
  unfold classify. destruct (ge x q75); [now left|].
  destruct (ge x q40); [right; now left | right; now right].
Qed.

(** X13. The map gives every market exactly one of the three labels, and a
    market whose streams no other market exceeds is always labelled High -
    alone on the map or tied with others. *)
Theorem market_signal_top (map_genre : string) (mdf : list ((string * string) * Z)) :
  List.length (market_signal map_genre mdf) = List.length mdf
  /\ Forall
       (fun label =>
          label = "High " ++ map_genre ++ " adoption market"
          \/ label = "Moderate " ++ map_genre ++ " adoption market"
          \/ label = "Low " ++ map_genre ++ " adoption market")
       (market_signal map_genre mdf)
  /\ forall i market,
       nth_error mdf i = Some market ->
       (forall other, In other mdf -> snd other <= snd market) ->
       nth_error (market_signal map_genre mdf) i
       = Some ("High " ++ map_genre ++ " adoption market").
Proof.
  unfold market_signal. split; [apply length_map|]. split.
  - apply Forall_map, Forall_forall. intros kv _. apply classify_labels.
  - intros i market Hi Hmax. rewrite nth_error_map, Hi. simpl. f_equal.
    assert (Hne : map snd mdf <> []).
    { apply nth_error_In in Hi. destruct mdf; [destruct Hi | discriminate]. }
    destruct (quantile_interpolates (map snd mdf) (75 # 100) Hne)
      as (a & b & f & Hv & Ha & Hb & Hf0 & Hf1); try discriminate.
    apply in_map_iff in Ha as (ea & <- & Hina).
    apply in_map_iff in Hb as (eb & <- & Hinb).
    apply Hmax in Hina, Hinb.
    assert (Hle : (inject_Z (snd ea) + (inject_Z (snd eb) - inject_Z (snd ea)) * f
                   <= inject_Z (snd market))%Q).
    { apply (convex_between _ _ f (inject_Z (Z.min (snd ea) (snd eb))));
        try assumption; unfold Qle; simpl; lia. }
    unfold classify. rewrite Hv. simpl.
    apply Qle_bool_iff in Hle. now rewrite Hle.
Qed.

Lemma market_signal_top_witness :
  market_signal "Pop" (map_df Samples.table (Some "Pop"))
  = ["Low Pop adoption market"; "High Pop adoption market"]
  /\ nth_error (market_signal "Pop" (map_df Samples.table (Some "Pop"))) 1
     = Some "High Pop adoption market".
Proof.
  split; [reflexivity|].
  destruct (market_signal_top "Pop" (map_df Samples.table (Some "Pop")))
    as (_ & _ & Htop).
  apply (Htop 1%nat ("United States", "US", 100)).
  - reflexivity.
  - intros other Hin. simpl in Hin.
    destruct Hin as [<-|[<-|[]]]; simpl; lia.
Defined.
End Quantiles.

(** ** The campaign table across revisions *)

Section CampaignRevisions.
Import Pandas Campaign CampaignPage.
Variable parse : string -> option number.

Lemma coerce_idempotent (v : cell) : coerce parse (coerce parse v) = coerce parse v.
Proof.
  destruct v as [q|s|]; simpl; try reflexivity.
  destruct (parse s); reflexivity.
Qed.

Lemma coerce_row_idempotent (r : CampaignRow) :
  coerce_row parse (coerce_row parse r) = coerce_row parse r.
Proof.
  unfold coerce_row. simpl. now rewrite !coerce_idempotent.
Qed.

Lemma get_col_coerce_row (c : NumCol) (r : CampaignRow) :
  get_col c (coerce_row parse r) = coerce parse (get_col c r).
Proof.
  destruct c; reflexivity.
Qed.

(** X14. After the coercion loop no numeric column holds text any more, and
    running the loop again changes nothing. *)
Theorem numeric_safety_idempotent (cdf : list CampaignRow) :
  numeric_safety parse (numeric_safety parse cdf) = numeric_safety parse cdf
  /\ Forall
       (fun r => forall c, is_num (get_col c r) \/ get_col c r = Missing)
       (numeric_safety parse cdf).
Proof.
  rewrite !numeric_safety_rows. split.
  - rewrite map_map. apply map_ext, coerce_row_idempotent.
  - apply Forall_map, Forall_forall. intros r _ c.
    rewrite get_col_coerce_row. apply coerce_not_text.
Qed.

Lemma filter_idempotent {A : Type} (f : A -> bool) (l : list A) :
  filter f (filter f l) = filter f l.
Proof.
  apply forallb_filter_id, forallb_filter.
Qed.

(** X15. The [dropna()] of the later revisions keeps exactly the rows that
    the [dropna(subset=...)] of "app (13).py" keeps and that have no missing
    cell in any other column either - the four text columns, the two user
    counts and whatever else the CSV holds - so its table is a sub-table of
    the other; dropping twice drops nothing more; and the revision without a
    subset never shows a campaign the revision with the subset leaves out. *)
Theorem dropna_all_drops_more (campaign_df : list CampaignRow) :
  dropna_all campaign_df
  = filter
      (fun r =>
         negb (isnull (campaign_name r))
         && negb (isnull (target_region r))
         && negb (isnull (target_genre r))
         && negb (isnull (month r))
         && negb (isna (users_before r))
         && negb (isna (users_after r))
         && forallb (fun v => negb (isna v)) (other_cells r))
      (dropna campaign_df)
  /\ Subtable (dropna_all campaign_df) (dropna campaign_df)
  /\ dropna_all (dropna_all campaign_df) = dropna_all campaign_df
  /\ dropna (dropna campaign_df) = dropna campaign_df
  /\ exists rows,
       prepare parse campaign_df = Ok rows
       /\ Subtable (prepare_all parse campaign_df) (map base rows).
Proof.
  assert (Heq : forall l,
             dropna_all l
             = filter
                 (fun r =>
                    negb (isnull (campaign_name r))
                    && negb (isnull (target_region r))
                    && negb (isnull (target_genre r))
                    && negb (isnull (month r))
                    && negb (isna (users_before r))
                    && negb (isna (users_after r))
                    && forallb (fun v => negb (isna v)) (other_cells r))
                 (dropna l)).
  { intros l. unfold dropna_all, dropna. rewrite filter_both.
    apply filter_ext. intros r.
    destruct (isnull (campaign_name r)), (isnull (target_region r)),
      (isnull (target_genre r)), (isnull (month r)),
      (isna (users_before r)), (isna (users_after r)),
      (isna (net_user_gain r)), (isna (user_growth_pct r)),
      (isna (premium_growth_pct r)),
      (forallb (fun v => negb (isna v)) (other_cells r)); reflexivity. }
  split; [apply Heq|]. split; [rewrite Heq; apply filter_Subtable|].
  split; [apply filter_idempotent|]. split; [apply filter_idempotent|].
  rewrite prepare_sizes. unfold prepare_all.
  eexists. split; [reflexivity|].
  rewrite map_map. simpl. rewrite map_id, Heq. apply filter_Subtable.
Qed.

(** X16. The campaign page filters like the streaming page, on three
    columns: the view is a sub-table whose rows carry a selected campaign,
    region and month; filtering the view again changes nothing; the default
    selections give the whole table and a cleared campaign list gives none. *)
Theorem cdf_sound (campaign_df : list CampaignRow)
  (camp region_sel month_sel : list text) :
  Subtable (cdf campaign_df camp region_sel month_sel) campaign_df
  /\ Forall
       (fun r =>
          In (campaign_name r) camp
          /\ In (target_region r) region_sel
          /\ In (month r) month_sel)
       (cdf campaign_df camp region_sel month_sel)
  /\ cdf (cdf campaign_df camp region_sel month_sel) camp region_sel month_sel
     = cdf campaign_df camp region_sel month_sel
  /\ cdf campaign_df
       (unique (map campaign_name campaign_df))
       (unique (map target_region campaign_df))
       (unique (map month campaign_df))
     = campaign_df
  /\ cdf campaign_df [] region_sel month_sel = [].
Proof.
  unfold cdf. split; [apply filter_Subtable|]. split; [|split; [|split]].
  - apply Forall_forall. intros r Hr. apply filter_In in Hr as [_ Hm].
    rewrite !andb_true_iff, !isin_In in Hm. tauto.
  - apply filter_idempotent.
  - apply filter_all. intros r Hr.
    rewrite !andb_true_iff. repeat split; apply unique_complete, in_map, Hr.
  - apply filter_none. intros r _. reflexivity.
Qed.

(** X18. The preparation of the campaign table never raises and sizes
    exactly the rows the drop keeps, each with a number for its gain.  When
    every integer gain [z] of the coerced table has [|z| <= 2^63 - 11], so
    that neither the absolute value nor the offset wraps, every size is a
    number above zero. *)
Theorem prepare_sizes_positive (campaign_df : list CampaignRow) :
  (forall r z,
      In r (numeric_safety parse campaign_df) ->
      net_user_gain r = Num (Int z) ->
      Z.abs z <= 2 ^ 63 - 11) ->
  exists rows,
    prepare parse campaign_df = Ok rows
    /\ map base rows = dropna (numeric_safety parse campaign_df)
    /\ Forall
         (fun r => exists g size,
              net_user_gain (base r) = Num g
              /\ abs_user_gain r = Num size
              /\ positive_number size)
         rows.
Proof.
  intros Hsmall. rewrite prepare_sizes. eexists. split; [reflexivity|]. split.
  - rewrite map_map. simpl. apply map_id.
  - apply Forall_map, Forall_forall. intros r Hr. simpl.
    pose proof (dropna_numeric parse campaign_df) as Hnum.
    rewrite Forall_forall in Hnum. destruct (Hnum r Hr) as [g Hg].
    exists g. eexists. split; [exact Hg|]. rewrite Hg. simpl.
    split; [reflexivity|]. apply size_positive. right.
    intros z ->. apply (Hsmall r z); [|exact Hg].
    unfold dropna in Hr. now apply filter_In in Hr.
Qed.
End CampaignRevisions.

(** ** The campaign revisions on sample data *)

Lemma dropna_all_drops_more_witness :
  map Campaign.campaign_name
    (Campaign.dropna
       (Campaign.numeric_safety Campaign.parse_decimal Fixtures.raw_campaigns))
  = [Some "Winter"; Some "Summer"; None]
  /\ map Campaign.campaign_name
       (CampaignPage.prepare_all Campaign.parse_decimal Fixtures.raw_campaigns)
     = [Some "Winter"]
  /\ Subtable
       (CampaignPage.dropna_all
          (Campaign.numeric_safety Campaign.parse_decimal Fixtures.raw_campaigns))
       (Campaign.dropna
          (Campaign.numeric_safety Campaign.parse_decimal Fixtures.raw_campaigns)).
Proof.
  split; [reflexivity|]. split; [reflexivity|].
  apply (dropna_all_drops_more Campaign.parse_decimal
           (Campaign.numeric_safety Campaign.parse_decimal Fixtures.raw_campaigns)).
Defined.

Lemma prepare_sizes_positive_witness :
  exists rows,
    Campaign.prepare Campaign.parse_decimal Fixtures.raw_campaigns = Ok rows
    /\ map Campaign.abs_user_gain rows
       = [Campaign.Num (Campaign.Real 15); Campaign.Num (Campaign.Real 30);
          Campaign.Num (Campaign.Real 19)].
Proof.
  destruct (prepare_sizes_positive Campaign.parse_decimal Fixtures.raw_campaigns)
    as (rows & Hrows & _).
  - intros r z Hr Hz. simpl in Hr.
    destruct Hr as [<-|[<-|[<-|[<-|[]]]]]; simpl in Hz;
      try discriminate; injection Hz as <-; simpl; lia.
  - exists rows. split; [exact Hrows|].
    vm_compute in Hrows. injection Hrows as <-. reflexivity.
Defined.

(** ** The sidebar options and the KPI row on sample data *)

Lemma unique_distinct_witness :
  Pandas.unique [Some "US"; None; Some "EU"; Some "US"; None]
  = [Some "US"; None; Some "EU"].
Proof.
  destruct (unique_distinct [Some "US"; None; Some "EU"; Some "US"] None)
    as (_ & _ & _ & _ & Hlast).
  etransitivity; [exact Hlast | reflexivity].
Defined.

Lemma kpi_row_needs_artist_witness :
  Dashboard.kpi_row
    (Dashboard.df Samples.table_with_gap [None] [Some "Pop"] [Some "Free"]
       [Some "2024-01"])
  = Raise ValueError
  /\ returns (Dashboard.kpi_row Samples.table_with_gap).
Proof.
  split.
  - apply (kpi_row_needs_artist
             (Dashboard.df Samples.table_with_gap [None] [Some "Pop"]
                [Some "Free"] [Some "2024-01"])).
    intros r Hr. simpl in Hr. destruct Hr as [<-|[]]. reflexivity.
  - apply (kpi_row_needs_artist Samples.table_with_gap).
    eexists. split; [left; reflexivity | discriminate].
Defined.
